(** * Anomaly-detection calibration of CoTeDe: a shallow embedding

    The functions of [cotede/anomaly_detection.py] are embedded as Rocq
    functions.  NumPy arrays are lists, masked arrays are lists of options
    ([None] is a masked entry), dictionaries are [gmap]s keyed by strings,
    and a Python exception is the [Raise] branch of [result].  Floating
    point numbers are idealised as exact rationals ([Qc]); the functions of
    SciPy and of the random generator are parameters of the sections that
    use them. *)

From Stdlib Require Import QArith Qcanon Qround.
From stdpp Require Import base numbers list option strings gmap sorting.

Local Open Scope Qc_scope.

(** ** Python outcomes *)

Inductive exn : Set :=
  | AssertionError
  | IndexError
  | KeyError
  | NameError
  | TypeError
  | ValueError.

(** A call either returns a value or raises. *)
Inductive result (A : Type) : Type :=
  | Ok (a : A)
  | Raise (e : exn).
Global Arguments Ok {A} a.
Global Arguments Raise {A} e.

Global Instance result_ret : MRet result := λ A a, Ok a.
Global Instance result_bind : MBind result := λ A B f m,
  match m with
  | Ok a => f a
  | Raise e => Raise e
  end.

(** [o] when it is there, the exception [e] otherwise. *)
Definition or_raise {A} (e : exn) (o : option A) : result A :=
  match o with
  | Some a => Ok a
  | None => Raise e
  end.

(** [assert c]. *)
Definition py_assert (c : bool) : result unit :=
  if c then Ok tt else Raise AssertionError.

(** ** Numbers *)

Definition Qc_of_nat (n : nat) : Qc := Qc_of_Z (Z.of_nat n).

(** The literal [0.1]. *)
Definition tenth : Qc := Q2Qc (1 # 10).

(** ** Arrays *)

(** [np.nonzero(b)[0]]: the positions of the true entries, ascending. *)
Fixpoint nonzero_from (i : nat) (b : list bool) : list nat :=
  match b with
  | [] => []
  | x :: b' => if x then i :: nonzero_from (S i) b' else nonzero_from (S i) b'
  end.
Definition nonzero (b : list bool) : list nat := nonzero_from 0 b.

(** A masked boolean array read as a plain one: a masked entry counts as
    false, as it does for [np.nonzero] and for boolean indexing. *)
Definition ma_filled_false (b : list (option bool)) : list bool :=
  (λ o : option bool, default false o) <$> b.

(** [~b] on a masked boolean array: the mask stays. *)
Definition ma_invert (b : list (option bool)) : list (option bool) :=
  (λ o : option bool, negb <$> o) <$> b.

(** [a[idx]] for an array of positions [idx]; a position out of range
    raises [IndexError]. *)
Definition take_at {A} (a : list A) (idx : list nat) : result (list A) :=
  or_raise IndexError (mapM (λ i, a !! i) idx).

(** [a.min()]; the minimum of an empty array raises [ValueError]. *)
Definition Qcmin (x y : Qc) : Qc := if decide (y < x) then y else x.
Definition array_min (a : list Qc) : result Qc :=
  match a with
  | [] => Raise ValueError
  | x :: a' => Ok (foldl Qcmin x a')
  end.

(** [a.argmin()]: the first position of the smallest entry. *)
Fixpoint argmin_from (i best : nat) (vbest : nat) (a : list nat) : nat :=
  match a with
  | [] => best
  | v :: a' =>
      if decide (v < vbest)%nat then argmin_from (S i) i v a'
      else argmin_from (S i) best vbest a'
  end.
Definition argmin (a : list nat) : result nat :=
  match a with
  | [] => Raise ValueError
  | v :: a' => Ok (argmin_from 1 0 v a')
  end.

(** [a.min()] for an array of counts. *)
Definition count_min (a : list nat) : result nat :=
  match a with
  | [] => Raise ValueError
  | v :: a' => Ok (foldl Nat.min v a')
  end.

(** [np.arange(0, stop, step)] for a positive [step]:
    [ceil(stop/step)] values [0, step, 2*step, ...]. *)
Definition arange0 (stop step : Qc) : list Qc :=
  (λ i, Qc_of_nat i * step)
    <$> seq 0 (Z.to_nat (Qceiling (this (stop / step)))).

(** The number of entries of [a] that satisfy [f]. *)
Definition count_if {A} (f : A → bool) (a : list A) : nat :=
  length (filter (λ x, f x = true) a).

(** ** The threshold optimizer: [estimate_p_optimal] *)

(** [prob[np.nonzero(binflag)]]: the scores of the rows labelled good. *)
Definition scores_of_good (prob : list Qc) (binflag : list (option bool))
  : result (list Qc) :=
  take_at prob (nonzero (ma_filled_false binflag)).

(** [prob[np.nonzero(~binflag)]]: the scores of the rows labelled bad. *)
Definition scores_of_bad (prob : list Qc) (binflag : list (option bool))
  : result (list Qc) :=
  take_at prob (nonzero (ma_filled_false (ma_invert binflag))).

(** [P = -np.arange(0, -p_limit, 0.1)] with
    [p_limit = prob[np.nonzero(binflag)].min() - 0.1]. *)
Definition threshold_grid (prob : list Qc) (binflag : list (option bool))
  : result (list Qc) :=
  good ← scores_of_good prob binflag;
  m ← array_min good;
  let p_limit := m - tenth in
  mret (Qcopp <$> arange0 (- p_limit) tenth).

(** Good rows scored below [p]. *)
Definition false_negative (prob : list Qc) (binflag : list (option bool))
    (p : Qc) : result nat :=
  good ← scores_of_good prob binflag;
  mret (count_if (λ x, bool_decide (x < p)) good).

(** Bad rows scored above [p]. *)
Definition false_positive (prob : list Qc) (binflag : list (option bool))
    (p : Qc) : result nat :=
  bad ← scores_of_bad prob binflag;
  mret (count_if (λ x, bool_decide (p < x)) bad).

(** [err[i]] of the candidate [p]. *)
Definition cost (prob : list Qc) (binflag : list (option bool)) (p : Qc)
  : result nat :=
  fn ← false_negative prob binflag p;
  fp ← false_positive prob binflag p;
  mret (fn + fp)%nat.

(** The returned pair is [(P[err.argmin()], err.min()/prob.size)]. *)
Definition estimate_p_optimal (prob : list Qc) (binflag : list (option bool))
  : result (Qc * Qc) :=
  _ ← py_assert (bool_decide (length prob = length binflag));
  P ← threshold_grid prob binflag;
  err ← mapM (M := result) (cost prob binflag) P;
  i ← argmin err;
  p ← or_raise IndexError (P !! i);
  e ← count_min err;
  mret (p, Qc_of_nat e / Qc_of_nat (length prob)).

(** A good row and a bad row that share the score [-0.15]: the grid is
    [0, -0.1, -0.2] and every candidate costs one mistake. *)
Definition tie_prob : list Qc := [Q2Qc (-3 # 20); Q2Qc (-3 # 20)].
Definition tie_binflag : list (option bool) := [Some true; Some false].

(** ** The partitioner: [split_data_groups] *)

(** Python 2 [int(round(x))]: to the nearest integer, a half away from
    zero. *)
Definition py_round (q : Qc) : Z :=
  if decide (0 ≤ q) then Qfloor (this (q + Q2Qc (1 # 2)))
  else (- Qfloor (this (- q + Q2Qc (1 # 2))))%Z.

(** [flag == f] for an integer array with missing entries: a missing entry
    equals no code. *)
Definition flag_eq (flag : list (option Z)) (f : Z) : list bool :=
  (λ o : option Z, bool_decide (o = Some f)) <$> flag.

(** [a[where] = v] for a boolean array [where] and a masked array [a]: the
    selected entries take the value [v] and lose their mask. *)
Definition ma_set_where {A} (where_ : list bool) (v : A) (a : list (option A))
  : list (option A) :=
  zip_with (λ (w : bool) (o : option A), if w then Some v else o) where_ a.

(** The loops [for f in flags: ind[flag == f] = v]. *)
Definition mark_flags (flag : list (option Z)) (flags : list Z) (v : bool)
    (ind : list (option bool)) : list (option bool) :=
  foldl (λ acc f, ma_set_where (flag_eq flag f) v acc) ind flags.

(** [ind == v] on a masked boolean array: the mask stays. *)
Definition ma_eq (ind : list (option bool)) (v : bool) : list (option bool) :=
  (λ o : option bool, (λ b, bool_decide (b = v)) <$> o) <$> ind.

(** [~ma.getmaskarray(a)]. *)
Definition ma_valid {A} (a : list (option A)) : list bool :=
  (λ o : option A, bool_decide (is_Some o)) <$> a.

(** [a & b] for a masked [a] and a plain [b]. *)
Definition ma_and (a : list (option bool)) (b : list bool)
  : list (option bool) :=
  zip_with (λ (o : option bool) (v : bool), (λ x, x && v) <$> o) a b.

(** [a[idx] = v] for an array of positions [idx]; a position out of range
    raises [IndexError]. *)
Definition set_at {A} (idx : list nat) (v : A) (a : list A) : result (list A) :=
  if bool_decide (Forall (λ i, (i < length a)%nat) idx)
  then Ok (foldr (λ i acc, <[i := v]> acc) a idx)
  else Raise IndexError.

(** [a[i:j]]. *)
Definition slice {A} (i j : nat) (a : list A) : list A := drop i (take j a).

(** The three index sets of a partition: the dictionary with the keys
    ['fit'], ['test'] and ['err']. *)
Record groups : Type := Groups {
  fit : list bool;
  test : list bool;
  err : list bool;
}.

Definition default_good_flags : list Z := [1; 2]%Z.
Definition default_bad_flags : list Z := [3; 4]%Z.

(** The label array [ind] built at the start of [split_data_groups]. *)
Definition flag_labels (flag : list (option Z)) (good_flags bad_flags : list Z)
  : list (option bool) :=
  let ind := replicate (length flag) None in
  let ind := mark_flags flag good_flags true ind in
  mark_flags flag bad_flags false ind.

(** [np.nonzero((ind == v) & ind_valid)[0]]. *)
Definition rows_labelled (ind : list (option bool)) (v : bool) : list nat :=
  nonzero (ma_filled_false (ma_and (ma_eq ind v) (ma_valid ind))).

Section partitioner.
(** [np.random.permutation(n)]: a draw from the generator, whose state
    has the type [rng]. *)
Context {rng : Type} (permutation : nat → rng → list nat * rng).

(** [split_data_groups(flag, good_flags, bad_flags)].  The flags are
    integers, so the assertion on the dtype holds. *)
Definition split_data_groups_with (good_flags bad_flags : list Z)
    (flag : list (option Z)) (s : rng) : result (groups * rng) :=
  let ind := flag_labels flag good_flags bad_flags in
  let N := length ind in
  let ind_base := replicate N false in
  (* good data *)
  let ind_good := rows_labelled ind true in
  let N_good := length ind_good in
  let '(perm, s) := permutation N_good s in
  let N_test := Z.to_nat (py_round (Qc_of_nat N_good * Q2Qc (2 # 10))) in
  rows ← take_at ind_good (take N_test perm);
  ind_test ← set_at rows true ind_base;
  rows ← take_at ind_good (slice N_test (2 * N_test) perm);
  ind_err ← set_at rows true ind_base;
  rows ← take_at ind_good (drop (2 * N_test) perm);
  ind_fit ← set_at rows true ind_base;
  (* bad data *)
  let ind_bad := rows_labelled ind false in
  let N_bad := length ind_bad in
  let '(perm, s) := permutation N_bad s in
  let N_test := Z.to_nat (py_round (Qc_of_nat N_bad * Q2Qc (5 # 10))) in
  rows ← take_at ind_bad (take N_test perm);
  ind_test ← set_at rows true ind_test;
  rows ← take_at ind_bad (drop N_test perm);
  ind_err ← set_at rows true ind_err;
  mret (Groups ind_fit ind_test ind_err, s).

(** [split_data_groups(flag)] with the default flag codes. *)
Definition split_data_groups : list (option Z) → rng → result (groups * rng) :=
  split_data_groups_with default_good_flags default_bad_flags.
End partitioner.

(** A generator to run the partitioner with: the state is a counter, and
    in the state [n] the draw of a permutation of [0..k-1] is the identity
    rotated by [n]. *)
Definition rotate_permutation (k : nat) (n : nat) : list nat * nat :=
  (rotate n (seq 0 k), S n).

(** *** Reading a partition *)

(** Row [r] belongs to the index set [a]. *)
Definition selected (a : list bool) (r : nat) : bool :=
  default false (a !! r).

(** Row [r] carries one of the flag codes [fs]. *)
Definition flag_in (fs : list Z) (flag : list (option Z)) (r : nat) : bool :=
  match flag !! r with
  | Some (Some f) => bool_decide (f ∈ fs)
  | _ => false
  end.

(** The number of rows below [N] that satisfy [f]. *)
Definition count_rows (f : nat → bool) (N : nat) : nat :=
  count_if f (seq 0 N).

(** Flags of a small cast: seven good rows, four bad rows, and three rows
    with a missing or unknown flag. *)
Definition sample_flag : list (option Z) :=
  [Some 1; Some 1; Some 2; Some 3; None; Some 0; Some 4; Some 1; Some 2;
   Some 4; Some 3; Some 1; Some 9; Some 1]%Z.

(** Flags without any valid entry. *)
Definition unlabelled_flag : list (option Z) := [None; Some 0; Some 7]%Z.

(** ** The anomaly scorer: [estimate_anomaly] *)

(** One entry of the mapping returned by [fit_tests]: the tuple of fitted
    parameters (shapes, then location and scale) and the quantile limit. *)
Record dist_params : Type := DistParams {
  param : list Qc;
  qlimit : Qc;
}.

(** The floor [1e-15]. *)
Definition sf_floor : Qc := Q2Qc (1 # 1000000000000000).

(** [tmp[tmp == 0] = 1e-15] on one entry. *)
Definition floor_zero (x : Qc) : Qc := if decide (x = 0) then sf_floor else x.

(** [(param[:-2], param[-2], param[-1])]; a tuple with fewer than two
    entries raises [IndexError]. *)
Definition split_param (p : list Qc) : result (list Qc * Qc * Qc) :=
  match reverse p with
  | scale :: loc :: shapes => Ok (reverse shapes, loc, scale)
  | _ => Raise IndexError
  end.

(** [np.asanyarray(a)[~ma.getmaskarray(a)]]: the entries that are not
    masked. *)
Definition compressed {A} (a : list (option A)) : list A := omap id a.

(** The entries of [a] at the true positions of [ind]. *)
Fixpoint gather {A} (ind : list bool) (a : list A) : list A :=
  match ind, a with
  | b :: ind', x :: a' => if b then x :: gather ind' a' else gather ind' a'
  | _, _ => []
  end.

(** [a] with the entries at the true positions of [ind] replaced, in
    order, by [vals]. *)
Fixpoint scatter {A} (ind : list bool) (a vals : list A) : list A :=
  match ind, a with
  | b :: ind', x :: a' =>
      if b then
        match vals with
        | v :: vals' => v :: scatter ind' a' vals'
        | [] => x :: scatter ind' a' []
        end
      else x :: scatter ind' a' vals
  | _, _ => a
  end.

(** [a[ind]] for a boolean array [ind]; a length that differs from the
    length of [a] raises [IndexError]. *)
Definition boolean_take {A} (a : list A) (ind : list bool) : result (list A) :=
  if decide (length ind = length a) then Ok (gather ind a)
  else Raise IndexError.

(** [a[ind] = vals] for a boolean array [ind]; [vals] must hold one value
    for each true position, else [ValueError]. *)
Definition boolean_put {A} (a : list A) (ind : list bool) (vals : list A)
  : result (list A) :=
  if decide (length ind = length a) then
    if decide (length vals = count_if id ind) then Ok (scatter ind a vals)
    else Raise ValueError
  else Raise IndexError.

(** Python's built-in [min(a, p)] on two arrays: it takes the truth value
    of [p < a], which is false for an empty array, the entry itself for an
    array of one entry, and raises [ValueError] for a longer array. *)
Definition py_min (a p : list Qc) : result (list Qc) :=
  match zip_with (λ y x : Qc, bool_decide (y < x)) p a with
  | [] => Ok a
  | [b] => Ok (if b then p else a)
  | _ => Raise ValueError
  end.

Section scorer.
(** [exponweib.sf(x, *shapes, loc=loc, scale=scale)] and the logarithm
    of a positive number, both from outside the repository. *)
Variable sf : Qc → list Qc → Qc → Qc → Qc.
Variable log : Qc → Qc.

(** The log-survival-probability of one value: survival function, floor,
    logarithm.  [ma.log] masks an argument that is not positive; a
    survival probability is never negative and a zero is raised to the
    floor, so no mask arises and the scores are plain numbers. *)
Definition log_survival (shapes : list Qc) (loc scale : Qc) (x : Qc) : Qc :=
  log (floor_zero (sf x shapes loc scale)).

(** The body of [for t in params.keys()], on the keys still to visit. *)
Fixpoint anomaly_loop (features : gmap string (list (option Qc)))
    (method : string) (ts : list (string * dist_params)) (prob : list Qc)
  : result (option (list Qc)) :=
  match ts with
  | [] => Ok (Some prob)
  | (t, dp) :: ts' =>
      col ← or_raise KeyError (features !! t);
      let ind := ma_valid col in
      '(shapes, loc, scale) ← split_param (param dp);
      let p := log_survival shapes loc scale <$> compressed col in
      if decide (method = "produtorium") then
        cur ← boolean_take prob ind;
        prob ← boolean_put prob ind (zip_with Qcplus cur p);
        anomaly_loop features method ts' prob
      else if decide (method = "min") then
        cur ← boolean_take prob ind;
        m ← py_min cur p;
        prob ← boolean_put prob ind m;
        anomaly_loop features method ts' prob
      else Ok None
  end.

(** [estimate_anomaly(features, params, method)]; [Ok None] is the bare
    [return].  Both arguments are mappings, so the two assertions hold. *)
Definition estimate_anomaly (features : gmap string (list (option Qc)))
    (params : gmap string dist_params) (method : string)
  : result (option (list Qc)) :=
  first ← or_raise IndexError (head (map_to_list features));
  let prob := replicate (length first.2) 0 in
  anomaly_loop features method (map_to_list params) prob.
End scorer.

(** Stand-ins for the two outside functions, for running the scorer: the
    survival function of a variable that is [loc] or [loc + scale] with
    equal chances, and the tangent of the logarithm at [1]. *)
Definition step_sf (x : Qc) (shapes : list Qc) (loc scale : Qc) : Qc :=
  if decide (x ≤ loc) then 1
  else if decide (x ≤ loc + scale) then Q2Qc (1 # 2)
  else 0.
Definition tangent_log (x : Qc) : Qc := x - 1.

(** *** Reading a score *)

(** The term a fitted feature adds for the value [x]. *)
Definition term_of (sf : Qc → list Qc → Qc → Qc → Qc) (log : Qc → Qc)
    (dp : dist_params) (x : Qc) : Qc :=
  match split_param (param dp) with
  | Ok (shapes, loc, scale) => log_survival sf log shapes loc scale x
  | Raise _ => 0
  end.

(** The value of feature [t] in row [r], when it is there and not masked. *)
Definition observed (features : gmap string (list (option Qc))) (t : string)
    (r : nat) : option Qc :=
  col ← features !! t; o ← col !! r; o.

(** The terms of row [r]: one for each fitted feature with a value in that
    row. *)
Definition row_terms (sf : Qc → list Qc → Qc → Qc → Qc) (log : Qc → Qc)
    (features : gmap string (list (option Qc))) (r : nat)
    (ts : list (string * dist_params)) : list Qc :=
  omap (λ tdp : string * dist_params,
          term_of sf log tdp.2 <$> observed features tdp.1 r) ts.

(** The sum of a list of numbers. *)
Definition Qcsum (l : list Qc) : Qc := foldr Qcplus 0 l.

(** A feature table of [n] rows and a mapping of parameters fitted on
    features of that table. *)
Definition table_ok (n : nat) (features : gmap string (list (option Qc)))
    (params : gmap string dist_params) : Prop :=
  features ≠ ∅ ∧
  (∀ t col, features !! t = Some col → length col = n) ∧
  (∀ t dp, params !! t = Some dp →
           is_Some (features !! t) ∧ (2 ≤ length (param dp))%nat).

(** A table of three rows and two features, and parameters fitted on
    both. *)
Definition sample_features : gmap string (list (option Qc)) :=
  <["gradient" := [Some (Q2Qc (1 # 2)); None; Some (Q2Qc 3)]]>
    (<["spike" := [None; None; Some 1]]> ∅).
Definition sample_params : gmap string dist_params :=
  <["gradient" := DistParams [1; 1; 0; 1] (Q2Qc (3 # 10))]>
    (<["spike" := DistParams [1; 1; 0; Q2Qc 2] (Q2Qc (1 # 2))]> ∅).

(** ** The fitter and the calibration: [fit_tests], [flags2bin],
    [calibrate4flags] *)

(** [flags2bin(flags)] for an array of flags: the same marking loops as at
    the start of [split_data_groups].  (For a mapping of flags the source
    calls [combined_flag] with the undefined name [reference_flags]; no
    caller in the module passes a mapping.) *)
Definition flags2bin (flags : list (option Z)) : list (option bool) :=
  flag_labels flags default_good_flags default_bad_flags.

(** [a & b] and [a | b] for a plain [a] and a masked [b], and for two
    masked arrays: an entry is masked when an operand is. *)
Definition and_ma (a : list bool) (b : list (option bool))
  : list (option bool) :=
  zip_with (λ (x : bool) (o : option bool), (λ y, x && y) <$> o) a b.
Definition ma_or (a b : list (option bool)) : list (option bool) :=
  zip_with (λ o1 o2 : option bool, x ← o1; y ← o2; Some (x || y)) a b.

(** [features[ind]]: the rows of a table selected by a boolean array, which
    must be as long as the table. *)
Definition select_rows (features : gmap string (list (option Qc)))
    (ind : list bool) : result (gmap string (list (option Qc))) :=
  if decide (map_Forall (λ _ col, length col = length ind) features)
  then Ok (gather ind <$> features)
  else Raise IndexError.

(** The outcome of the calibration steps. *)
Record calibration : Type := Calibration {
  indices : groups;
  params : gmap string dist_params;
  prob : list Qc;
  p_optimal : Qc;
  false_negative_mask : list (option bool);
  false_positive_mask : list (option bool);
}.

(** [mistake = false_positive | false_negative]. *)
Definition mistake (c : calibration) : list (option bool) :=
  ma_or (false_positive_mask c) (false_negative_mask c).

(** One entry of the error log. *)
Record log_entry : Type := LogEntry {
  log_err : Qc;
  log_err_ratio : Qc;
  log_p_optimal : Qc;
}.

(** [float(np.nonzero(mistake[indices['err']])[0].shape[0])]. *)
Definition count_mistakes (c : calibration) : result Qc :=
  m ← boolean_take (mistake c) (err (indices c));
  mret (Qc_of_nat (length (nonzero (ma_filled_false m)))).

(** [n_err/indices['err'].astype('i').sum()].  For an empty [err] set the
    source yields [nan] or [inf]; a rational division by zero yields 0. *)
Definition error_ratio (n_err : Qc) (c : calibration) : Qc :=
  n_err / Qc_of_nat (count_if id (err (indices c))).

(** [(prob < p_optimal) & binflags] and [(prob > p_optimal) & ~binflags];
    arrays of different lengths do not broadcast. *)
Definition mistake_masks (prob : list Qc) (p_optimal : Qc)
    (binflags : list (option bool))
  : result (list (option bool) * list (option bool)) :=
  if decide (length prob = length binflags) then
    Ok (and_ma ((λ x, bool_decide (x < p_optimal)) <$> prob) binflags,
        and_ma ((λ x, bool_decide (p_optimal < x)) <$> prob)
          (ma_invert binflags))
  else Raise ValueError.

(** The dictionary returned by [calibrate4flags]. *)
Record calibration_result : Type := CalibrationResult {
  result_calibration : calibration;
  result_n_err : Qc;
  result_err_ratio : Qc;
}.

Section pipeline.
Context {rng : Type} (permutation : nat → rng → list nat * rng).
Variable sf : Qc → list Qc → Qc → Qc → Qc.
Variable log : Qc → Qc.
(** [cotede.misc.combined_flag], [Series.quantile] and [exponweib.fit],
    from outside the module. *)
Variable combined_flag : gmap string (list (option Z)) → list (option Z).
Variable quantile : list Qc → Qc → Qc.
Variable exponweib_fit : list Qc → list Qc.

(** [fit_tests(features, q=q)], with [ind] and [verbose] at their
    defaults: a feature is fitted on the values above its [q]-quantile, and
    left out when there is no such value. *)
Definition fit_tests (features : gmap string (list (option Qc))) (q : Qc)
  : gmap string dist_params :=
  omap (λ col : list (option Qc),
          let samp := compressed col in
          let top := filter (λ x, quantile samp q < x) samp in
          match top with
          | [] => None
          | _ => Some (DistParams (exponweib_fit top) (quantile samp q))
          end) features.

(** [calibrate4flags(flags, features, q)], with [verbose] left at
    [False].  The scorer is called with its default method; were it to
    return [None], indexing the result would raise [TypeError].  The table
    of the features is a data frame, where a missing value is a [nan]:
    [fit_tests] drops it, as here, but the scorer gives its row a masked
    score, so the scores of this function are those of the code on the
    rows without a missing value in a fitted feature. *)
Definition calibrate4flags (flags : gmap string (list (option Z)))
    (features : gmap string (list (option Qc))) (q : Qc) (s : rng)
  : result (calibration_result * rng) :=
  '(indices, s) ← split_data_groups permutation (combined_flag flags) s;
  fit_rows ← select_rows features (fit indices);
  let params := fit_tests fit_rows q in
  scores ← estimate_anomaly sf log features params "produtorium";
  prob ← or_raise TypeError scores;
  let binflags := flags2bin (combined_flag flags) in
  prob_test ← boolean_take prob (test indices);
  binflags_test ← boolean_take binflags (test indices);
  '(p_optimal, test_err) ← estimate_p_optimal prob_test binflags_test;
  '(false_negative, false_positive) ← mistake_masks prob p_optimal binflags;
  let c := Calibration indices params prob p_optimal
             false_negative false_positive in
  n_err ← count_mistakes c;
  mret (CalibrationResult c n_err (error_ratio n_err c), s).

(** The steps that [human_calibrate_mistakes] runs before its loop and
    again at the end of each iteration, for the flags as they are then:
    partition, fit, score, threshold, masks of the mistakes. *)
Definition calibration_steps (flags : gmap string (list (option Z)))
    (features : gmap string (list (option Qc))) (s : rng)
  : result (calibration * rng) :=
  let binflags := flags2bin (combined_flag flags) in
  '(indices, s) ← split_data_groups permutation (combined_flag flags) s;
  fit_rows ← select_rows features (fit indices);
  let params := fit_tests fit_rows (Q2Qc (9 # 10)) in
  scores ← estimate_anomaly sf log features params "produtorium";
  prob ← or_raise TypeError scores;
  prob_test ← boolean_take prob (test indices);
  flag_test ← boolean_take (combined_flag flags) (test indices);
  '(p_optimal, test_err) ← estimate_p_optimal prob_test (flags2bin flag_test);
  '(false_negative, false_positive) ← mistake_masks prob p_optimal binflags;
  mret (Calibration indices params prob p_optimal
          false_negative false_positive, s).
End pipeline.

(** ** The human refinement loop: [human_calibrate_mistakes] *)

(** The number of rows of a table of flags. *)
Definition table_rows (flags : gmap string (list (option Z))) : nat :=
  from_option (λ kc : string * list (option Z), length kc.2) 0%nat
    (head (map_to_list flags)).

(** The local variables of [human_calibrate_mistakes] that the loop reads
    or writes.  [n_err] and [err_ratio] are assigned once, before the
    loop. *)
Record loop_state {rng : Type} : Type := LoopState {
  st_flags : gmap string (list (option Z));
  st_doubt : option (list bool);
  st_binflags : list (option bool);
  st_cal : calibration;
  st_n_err : Qc;
  st_err_ratio : Qc;
  st_error_log : list log_entry;
  st_rng : rng;
}.
Global Arguments loop_state : clear implicits.

(** The dictionary returned by [human_calibrate_mistakes]. *)
Record refinement : Type := Refinement {
  ind_humanqc : list (option bool);
  error_log : list log_entry;
  final_p_optimal : Qc;
}.

Section refinement_loop.
Context {rng : Type} (permutation : nat → rng → list nat * rng).
Variable sf : Qc → list Qc → Qc → Qc → Qc.
Variable log : Qc → Qc.
Variable combined_flag : gmap string (list (option Z)) → list (option Z).
Variable quantile : list Qc → Qc → Qc.
Variable exponweib_fit : list Qc → list Qc.
(** The interactive part of an iteration: the profiles with the mistakes
    closest to the threshold are shown to [HumanQC], whose answers are
    written to the column ['human'] of the flags and to [doubt].  It is
    made of calls to pandas and to [HumanQC], outside the module, and is
    taken as a whole; it can raise, as line 461 does when no entry of
    [mistake] is masked. *)
Variable review :
  gmap string (list (option Z)) → list bool → list (option bool) →
  calibration → result (gmap string (list (option Z)) * list bool).

(** The features of the data set; they do not change. *)
Variable features : gmap string (list (option Qc)).

(** One iteration of [for i in range(niter)]; the two debugger breakpoints
    of the source are left out. *)
Definition human_iteration (st : loop_state rng) : result (loop_state rng) :=
  doubt ← or_raise NameError (st_doubt st);
  '(flags, doubt) ← review (st_flags st) doubt (st_binflags st) (st_cal st);
  let binflags := flags2bin (combined_flag flags) in
  '(c, s) ← calibration_steps permutation sf log combined_flag quantile
              exponweib_fit flags features (st_rng st);
  let error_log :=
    st_error_log st
    ++ [LogEntry (st_n_err st) (st_err_ratio st) (p_optimal c)] in
  mret (LoopState rng flags (Some doubt) binflags c (st_n_err st)
          (st_err_ratio st) error_log s).

Fixpoint human_loop (niter : nat) (st : loop_state rng)
  : result (loop_state rng) :=
  match niter with
  | O => Ok st
  | S niter' => st' ← human_iteration st; human_loop niter' st'
  end.

(** The function from the loaded tables [flags] and [features] up to its
    [return]: the local variables at that point. *)
Definition human_calibrate_mistakes_locals
    (flags : gmap string (list (option Z))) (niter : nat) (s : rng)
  : result (loop_state rng) :=
  let binflags := flags2bin (combined_flag flags) in
  '(_, s) ← calibrate4flags permutation sf log combined_flag quantile
              exponweib_fit flags features (Q2Qc (9 # 10)) s;
  '(c, s) ← calibration_steps permutation sf log combined_flag quantile
              exponweib_fit flags features s;
  n_err ← count_mistakes c;
  let err_ratio := error_ratio n_err c in
  let error_log := [LogEntry n_err err_ratio (p_optimal c)] in
  let '(flags, doubt) :=
    match flags !! "human" with
    | None =>
        (<["human" := replicate (table_rows flags) (Some 0%Z)]> flags,
         Some (replicate (table_rows flags) false))
    | Some _ => (flags, None)
    end in
  human_loop niter
    (LoopState rng flags doubt binflags c n_err err_ratio error_log s).

Definition human_calibrate_mistakes
    (flags : gmap string (list (option Z))) (niter : nat) (s : rng)
  : result refinement :=
  st ← human_calibrate_mistakes_locals flags niter s;
  mret (Refinement (st_binflags st) (st_error_log st)
          (p_optimal (st_cal st))).
End refinement_loop.

(** *** A data set and stand-ins for running the loop *)

(** The worst of two flags, a missing flag aside. *)
Definition worst_of (a b : option Z) : option Z :=
  match a, b with
  | Some x, Some y => Some (x `max` y)%Z
  | Some x, None => Some x
  | None, o => o
  end.
(** Modelled from the spec: [cotede.misc.combined_flag], which is not among
    the sources of the module.  The combined flag of a row is the worst
    (maximum) code across the flags of that row, and is missing only when
    every flag of the row is. *)
Definition worst_flag (flags : gmap string (list (option Z)))
  : list (option Z) :=
  foldr (λ (kc : string * list (option Z)) acc, zip_with worst_of kc.2 acc)
    (replicate (table_rows flags) None) (map_to_list flags).

(** Stand-in for [Series.quantile]: the value of rank [floor(q*(n-1))]. *)
Definition rank_quantile (samp : list Qc) (q : Qc) : Qc :=
  let sorted := merge_sort Qcle samp in
  let k := Z.to_nat (Qfloor (this (q * Qc_of_nat (length samp - 1)))) in
  default 0 (sorted !! k).

(** Stand-in for [exponweib.fit]: unit shapes and scale, the location at
    the smallest value of the sample. *)
Definition tail_fit (samp : list Qc) : list Qc :=
  match array_min samp with
  | Ok m => [1; 1; m; 1]
  | Raise _ => [1; 1; 0; 1]
  end.

(** [a.mask[where] = True] for a masked array [a] that came out of [&] or
    [|]: such a result carries the scalar [nomask] when none of its entries
    is masked, and a scalar takes no item assignment ([TypeError]). *)
Definition ma_mask_where (where_ : list bool) (a : list (option bool))
  : result (list (option bool)) :=
  if bool_decide (Forall (λ o : option bool, is_Some o) a)
  then Raise TypeError
  else Ok (zip_with (λ (w : bool) (o : option bool), if w then None else o)
             where_ a).

(** Stand-in for the review (lines 445 to 472), for a data set that is a
    single profile and a reviewer who calls every row shown as a failure
    bad and is never in doubt.  The rows to show are those of
    [np.nonzero(mistake & ~doubt)], reordered by [derr.argsort()], which
    has one position for each mistake: a mistake in doubt makes a position
    fall out of range ([IndexError]).  Without a row to show the loop over
    the profiles does not run; with one it runs once, line 461 masks the
    rows in doubt, and the rows shown as failures get the flag 4 in the
    column ['human']. *)
Definition strict_review (flags : gmap string (list (option Z)))
    (doubt : list bool) (binflags : list (option bool)) (c : calibration)
  : result (gmap string (list (option Z)) * list bool) :=
  let n_mistakes := count_if id (ma_filled_false (mistake c)) in
  let ind_toeval :=
    nonzero (ma_filled_false (ma_and (mistake c) (negb <$> doubt))) in
  if decide (length ind_toeval = n_mistakes) then
    match ind_toeval with
    | [] => Ok (flags, doubt)
    | _ =>
        fails ← ma_mask_where doubt (mistake c);
        human ← or_raise KeyError (flags !! "human");
        mret (<["human" := zip_with (λ (m : option bool) (h : option Z),
                                       if default false m then Some 4%Z else h)
                             fails human]> flags,
              doubt)
    end
  else Raise IndexError.

(** Ten measurements of one profile: the rule-based flags call the first
    seven good and the next two bad and leave the last one without a valid
    flag, and the fourth one has an extreme gradient. *)
Definition cast_flags : gmap string (list (option Z)) :=
  {["gradient" := [Some 1; Some 1; Some 1; Some 1; Some 1; Some 1; Some 1;
                   Some 4; Some 4; Some 0]%Z]}.
Definition cast_features : gmap string (list (option Qc)) :=
  {["gradient" := [Some 1; Some 1; Some 1; Some (Q2Qc 50); Some 1;
                   Some (Q2Qc 2); Some (Q2Qc 3); Some (Q2Qc 40);
                   Some (Q2Qc 60); Some 1]]}.

(** What [human_calibrate_mistakes] returns on the cast after one
    iteration with the strict reviewer. *)
Definition cast_refinement : refinement :=
  Refinement
    [Some true; Some true; Some true; Some false; Some true; Some true;
     Some true; Some false; Some false; None]
    [LogEntry (Qc_of_nat 1) (Q2Qc (1 # 2)) 0;
     LogEntry (Qc_of_nat 1) (Q2Qc (1 # 2)) 0]
    0.

(** *** Reading a label *)

(** The label of one flag with the default codes: good for 1 and 2, bad for
    3 and 4, missing otherwise. *)
Definition label_of (o : option Z) : option bool :=
  match o with
  | Some f =>
      if bool_decide (f ∈ default_bad_flags) then Some false
      else if bool_decide (f ∈ default_good_flags) then Some true
      else None
  | None => None
  end.

(** * Properties *)

(** ** The result monad *)

Lemma bind_Ok {A B} (f : A → result B) (a : A) : Ok a ≫= f = f a.
Proof. done. Qed.

Lemma mapM_result_ok {A B} (f : A → result B) (g : A → B) (l : list A) :
  (∀ x, x ∈ l → f x = Ok (g x)) → mapM f l = Ok (g <$> l).
Proof.
  induction l as [|x l IH]; intros Hf; [done|].
  cbn. rewrite (Hf x) by left. cbn.
  rewrite IH; [done|]. intros y Hy. apply Hf. by right.
Qed.

(** ** Arrays *)

Lemma elem_of_nonzero_from (b : list bool) (i j : nat) :
  j ∈ nonzero_from i b ↔ (i ≤ j)%nat ∧ b !! (j - i)%nat = Some true.
Proof.
  revert i. induction b as [|x b IH]; intros i; cbn.
  - rewrite elem_of_nil, lookup_nil. split; [done|]. by intros [_ ?].
  - assert (Hrest : j ∈ nonzero_from (S i) b ↔
                    (i < j)%nat ∧ b !! (j - S i)%nat = Some true).
    { rewrite IH. split; intros [??]; (split; [lia|done]). }
    destruct x; rewrite ?elem_of_cons, Hrest; split.
    + intros [->|[Hlt Hb]].
      * by rewrite Nat.sub_diag.
      * split; [lia|]. by replace (j - i)%nat with (S (j - S i)) by lia.
    + intros [Hle Hb]. destruct (decide (j = i)) as [->|Hne]; [by left|right].
      split; [lia|]. by replace (j - i)%nat with (S (j - S i)) in Hb by lia.
    + intros [Hlt Hb].
      split; [lia|]. by replace (j - i)%nat with (S (j - S i)) by lia.
    + intros [Hle Hb]. destruct (decide (j = i)) as [->|Hne].
      * by rewrite Nat.sub_diag in Hb.
      * split; [lia|].
        by replace (j - i)%nat with (S (j - S i)) in Hb by lia.
Qed.

Lemma elem_of_nonzero (b : list bool) (j : nat) :
  j ∈ nonzero b ↔ b !! j = Some true.
Proof.
  unfold nonzero. rewrite elem_of_nonzero_from, Nat.sub_0_r.
  split; [by intros [_ ?]|]. intros ?. split; [lia|done].
Qed.

Lemma NoDup_nonzero (b : list bool) : NoDup (nonzero b).
Proof.
  unfold nonzero. generalize 0%nat. induction b as [|x b IH]; intros i; cbn.
  - constructor.
  - destruct x; [|done]. constructor; [|done].
    rewrite elem_of_nonzero_from. lia.
Qed.

(** Indexing by positions that are all in range does not raise, and yields
    exactly the entries at these positions. *)
Lemma take_at_ok {A} (a : list A) (idx : list nat) :
  Forall (λ i, (i < length a)%nat) idx →
  ∃ l, take_at a idx = Ok l ∧ Forall2 (λ i x, a !! i = Some x) idx l.
Proof.
  intros Hidx. unfold take_at.
  destruct (mapM (λ i, a !! i) idx) as [l|] eqn:Hm.
  - exists l. split; [done|]. by apply mapM_Some_1.
  - apply mapM_None_1, Exists_exists in Hm as (i & Hi & Hnone).
    rewrite Forall_forall in Hidx. apply Hidx in Hi.
    apply lookup_ge_None in Hnone. lia.
Qed.

Lemma take_at_nonzero {A} (a : list A) (b : list bool) :
  length a = length b →
  ∃ l, take_at a (nonzero b) = Ok l ∧
       ∀ x, x ∈ l ↔ ∃ i, b !! i = Some true ∧ a !! i = Some x.
Proof.
  intros Hlen.
  destruct (take_at_ok a (nonzero b)) as (l & Hl & Hall).
  { apply Forall_forall. intros i Hi%elem_of_nonzero.
    apply lookup_lt_Some in Hi. lia. }
  exists l. split; [done|]. intros x. split.
  - intros Hx. apply list_elem_of_lookup in Hx as [k Hk].
    destruct (Forall2_lookup_r _ _ _ _ _ Hall Hk) as (i & Hi & Hai).
    exists i. split; [|done].
    apply elem_of_nonzero, list_elem_of_lookup. eauto.
  - intros (i & Hb & Ha).
    apply elem_of_nonzero, list_elem_of_lookup in Hb as [k Hk].
    destruct (Forall2_lookup_l _ _ _ _ _ Hall Hk) as (y & Hy & Hay).
    assert (y = x) as -> by congruence.
    apply list_elem_of_lookup. eauto.
Qed.

Lemma array_min_ok (a : list Qc) :
  a ≠ [] → ∃ m, array_min a = Ok m ∧ m ∈ a ∧ ∀ x, x ∈ a → m ≤ x.
Proof.
  destruct a as [|x a]; [done|]. intros _. cbn.
  exists (foldl Qcmin x a). split; [done|].
  assert (Hgen : ∀ acc, (foldl Qcmin acc a = acc ∨ foldl Qcmin acc a ∈ a) ∧
                        foldl Qcmin acc a ≤ acc ∧
                        ∀ y, y ∈ a → foldl Qcmin acc a ≤ y).
  { induction a as [|z a IH]; intros acc; cbn.
    - split; [by left|]. split; [done|]. by intros y ?%elem_of_nil.
    - destruct (IH (Qcmin acc z)) as (Hmem & Hle & Hall).
      assert (Hacc : Qcmin acc z ≤ acc ∧ Qcmin acc z ≤ z ∧
                     (Qcmin acc z = acc ∨ Qcmin acc z = z)).
      { unfold Qcmin. case_decide as Hlt.
        - split; [by apply Qclt_le_weak|]. split; [done|by right].
        - split; [done|]. split; [by apply Qcle_ngt|by left]. }
      destruct Hacc as (Ha & Hz & Hcase). split; [|split].
      + destruct Hmem as [->|Hin]; [|right; by right].
        destruct Hcase as [->| ->]; [by left|right; by left].
      + by trans (Qcmin acc z).
      + intros y [->|Hy]%elem_of_cons; [by trans (Qcmin acc z)|by apply Hall]. }
  destruct (Hgen x) as (Hmem & Hle & Hall). split.
  - destruct Hmem as [->|Hin]; [by left|by right].
  - intros y [->|Hy]%elem_of_cons; [done|by apply Hall].
Qed.

Lemma argmin_from_spec (a : list nat) (i best vbest : nat) :
  (argmin_from i best vbest a = best ∧ ∀ w, w ∈ a → (vbest ≤ w)%nat) ∨
  (∃ j v, argmin_from i best vbest a = (i + j)%nat ∧ a !! j = Some v ∧
          (v < vbest)%nat ∧
          ∀ j' w, a !! j' = Some w → (v ≤ w)%nat ∧ (w = v → (j ≤ j')%nat)).
Proof.
  revert i best vbest. induction a as [|x a IH]; intros i best vbest; cbn.
  - left. split; [done|]. by intros w ?%elem_of_nil.
  - case_decide as Hlt.
    + right. destruct (IH (S i) i x) as [[-> Hall]|(j & v & -> & Hj & Hv & Hmin)].
      * exists 0%nat, x. rewrite Nat.add_0_r. split_and!; [done..|].
        intros [|j'] w Hw; cbn in Hw.
        { injection Hw as ->. split; [done|lia]. }
        apply list_elem_of_lookup_2, Hall in Hw. lia.
      * exists (S j), v. split_and!; [lia|done|lia|].
        intros [|j'] w Hw; cbn in Hw.
        { injection Hw as ->. lia. }
        apply Hmin in Hw. lia.
    + destruct (IH (S i) best vbest) as [[-> Hall]|(j & v & -> & Hj & Hv & Hmin)].
      * left. split; [done|].
        intros w [->|Hw]%elem_of_cons; [lia|by apply Hall].
      * right. exists (S j), v. split_and!; [lia|done|done|].
        intros [|j'] w Hw; cbn in Hw.
        { injection Hw as ->. lia. }
        apply Hmin in Hw. lia.
Qed.

(** [argmin] returns the first position that holds the smallest entry. *)
Lemma argmin_spec (a : list nat) :
  a ≠ [] →
  ∃ k v, argmin a = Ok k ∧ a !! k = Some v ∧
         ∀ j w, a !! j = Some w → (v ≤ w)%nat ∧ (w = v → (k ≤ j)%nat).
Proof.
  destruct a as [|x a]; [done|]. intros _. cbn.
  destruct (argmin_from_spec a 1 0 x) as [[-> Hall]|(j & v & -> & Hj & Hv & Hmin)].
  - exists 0%nat, x. split_and!; [done..|].
    intros [|j'] w Hw; cbn in Hw.
    + injection Hw as ->. done.
    + apply list_elem_of_lookup_2, Hall in Hw. lia.
  - exists (S j), v. split_and!; [done..|].
    intros [|j'] w Hw; cbn in Hw.
    + injection Hw as ->. lia.
    + apply Hmin in Hw. lia.
Qed.

Lemma count_min_spec (a : list nat) :
  a ≠ [] → ∃ m, count_min a = Ok m ∧ m ∈ a ∧ ∀ w, w ∈ a → (m ≤ w)%nat.
Proof.
  destruct a as [|x a]; [done|]. intros _. cbn.
  exists (foldl Nat.min x a). split; [done|].
  assert (Hgen : ∀ acc, (foldl Nat.min acc a = acc ∨ foldl Nat.min acc a ∈ a) ∧
                        (foldl Nat.min acc a ≤ acc)%nat ∧
                        ∀ y, y ∈ a → (foldl Nat.min acc a ≤ y)%nat).
  { induction a as [|z a IH]; intros acc; cbn.
    - split; [by left|]. split; [done|]. by intros y ?%elem_of_nil.
    - destruct (IH (acc `min` z)%nat) as (Hmem & Hle & Hall). split; [|split].
      + destruct Hmem as [->|Hin]; [|right; by right].
        destruct (Nat.min_spec acc z) as [[_ ->]|[_ ->]]; [by left|right; by left].
      + lia.
      + intros y [->|Hy]%elem_of_cons; [lia|by apply Hall]. }
  destruct (Hgen x) as (Hmem & Hle & Hall). split.
  - destruct Hmem as [->|Hin]; [by left|by right].
  - intros y [->|Hy]%elem_of_cons; [done|by apply Hall].
Qed.

Lemma tenth_pos : 0 < tenth.
Proof. done. Qed.

Lemma Qc_of_nat_le (n m : nat) : (n ≤ m)%nat → Qc_of_nat n ≤ Qc_of_nat m.
Proof.
  intros Hle. unfold Qc_of_nat.
  apply (proj1 (Z2Qc_inj_le (Z.of_nat n) (Z.of_nat m))). lia.
Qed.

Lemma arange0_lookup (stop step : Qc) (j : nat) (q : Qc) :
  arange0 stop step !! j = Some q → q = Qc_of_nat j * step.
Proof.
  unfold arange0. rewrite list_lookup_fmap.
  destruct (seq _ _ !! j) as [i|] eqn:Hi; [|done].
  apply lookup_seq in Hi as [-> _]. cbn. by intros [= <-].
Qed.

Lemma arange0_nonempty (stop step : Qc) :
  0 < step → 0 < stop → arange0 stop step ≠ [].
Proof.
  intros Hstep Hstop Hnil.
  assert (Hlen : length (arange0 stop step) = 0%nat) by (by rewrite Hnil).
  unfold arange0 in Hlen. rewrite length_fmap, length_seq in Hlen.
  assert (Hpos : 0 < stop / step).
  { apply Qcmult_pos_pos; [done|by apply Qcinv_pos]. }
  pose proof (Qle_ceiling (this (stop / step))) as Hceil.
  assert (Hz : (0 < Qceiling (this (stop / step)))%Z).
  { rewrite Zlt_Qlt. eapply Qlt_le_trans; [exact Hpos|exact Hceil]. }
  lia.
Qed.

(** The grid runs downwards from [0]: a later candidate is not larger. *)
Lemma grid_descending (stop : Qc) (k j : nat) (p q : Qc) :
  (Qcopp <$> arange0 stop tenth) !! k = Some p →
  (Qcopp <$> arange0 stop tenth) !! j = Some q →
  (k ≤ j)%nat → q ≤ p.
Proof.
  rewrite !list_lookup_fmap. intros Hk Hj Hle.
  destruct (arange0 stop tenth !! k) as [p'|] eqn:Hp; [|done].
  destruct (arange0 stop tenth !! j) as [q'|] eqn:Hq; [|done].
  apply arange0_lookup in Hp as ->. apply arange0_lookup in Hq as ->.
  cbn in Hk, Hj. injection Hk as <-. injection Hj as <-.
  apply Qcopp_le_compat, Qcmult_le_mono_nonneg_r.
  - apply Qclt_le_weak, tenth_pos.
  - by apply Qc_of_nat_le.
Qed.

(** ** The threshold optimizer *)

Lemma length_ma_filled_false (b : list (option bool)) :
  length (ma_filled_false b) = length b.
Proof. unfold ma_filled_false. by rewrite length_fmap. Qed.

Lemma length_ma_invert (b : list (option bool)) :
  length (ma_invert b) = length b.
Proof. unfold ma_invert. by rewrite length_fmap. Qed.

Lemma ma_filled_false_lookup (b : list (option bool)) (i : nat) :
  ma_filled_false b !! i = Some true ↔ b !! i = Some (Some true).
Proof.
  unfold ma_filled_false. rewrite list_lookup_fmap.
  destruct (b !! i) as [[[]|]|]; cbn; naive_solver.
Qed.

Lemma scores_of_good_ok (prob : list Qc) (binflag : list (option bool)) :
  length prob = length binflag →
  ∃ good, scores_of_good prob binflag = Ok good ∧
    ∀ x, x ∈ good ↔
         ∃ i, binflag !! i = Some (Some true) ∧ prob !! i = Some x.
Proof.
  intros Hlen. unfold scores_of_good.
  destruct (take_at_nonzero prob (ma_filled_false binflag)) as (l & Hl & Hmem).
  { by rewrite length_ma_filled_false. }
  exists l. split; [done|]. intros x. rewrite Hmem.
  by setoid_rewrite ma_filled_false_lookup.
Qed.

Lemma scores_of_bad_ok (prob : list Qc) (binflag : list (option bool)) :
  length prob = length binflag →
  ∃ bad, scores_of_bad prob binflag = Ok bad.
Proof.
  intros Hlen. unfold scores_of_bad.
  destruct (take_at_nonzero prob (ma_filled_false (ma_invert binflag)))
    as (l & Hl & _); [|by exists l].
  by rewrite length_ma_filled_false, length_ma_invert.
Qed.

Lemma arange0_empty (stop step : Qc) :
  0 < step → stop ≤ 0 → arange0 stop step = [].
Proof.
  intros Hstep Hstop. unfold arange0.
  assert (Hle : stop / step ≤ 0).
  { unfold Qcdiv. rewrite <-(Qcmult_0_l (/ step)).
    apply Qcmult_le_mono_nonneg_r; [|done].
    by apply Qclt_le_weak, Qcinv_pos. }
  pose proof (Qceiling_lt (this (stop / step))) as Hceil.
  assert (Hz : (Qceiling (this (stop / step)) - 1 < 0)%Z).
  { rewrite Zlt_Qlt. eapply Qlt_le_trans; [exact Hceil|exact Hle]. }
  by replace (Z.to_nat (Qceiling (this (stop / step)))) with 0%nat by lia.
Qed.

(** What the optimizer asks of its input: equal lengths, a row labelled
    good, and a good score below [0.1]; without the last the grid is
    empty. *)
Lemma estimate_p_optimal_shapes (prob : list Qc)
    (binflag : list (option bool)) :
  length prob ≠ length binflag →
  estimate_p_optimal prob binflag = Raise AssertionError.
Proof.
  intros Hlen. unfold estimate_p_optimal. by rewrite bool_decide_false.
Qed.

Lemma estimate_p_optimal_no_good_row (prob : list Qc)
    (binflag : list (option bool)) :
  length prob = length binflag →
  (∀ i, binflag !! i ≠ Some (Some true)) →
  estimate_p_optimal prob binflag = Raise ValueError.
Proof.
  intros Hlen Hnone.
  destruct (scores_of_good_ok prob binflag Hlen) as (good & Hgood & Hmem).
  assert (good = []) as ->.
  { destruct good as [|x good]; [done|].
    destruct (proj1 (Hmem x)) as (i & Hi & _); [by left|].
    by destruct (Hnone i). }
  unfold estimate_p_optimal, threshold_grid.
  rewrite bool_decide_true by done. cbn [py_assert]. rewrite bind_Ok.
  by rewrite Hgood.
Qed.

Lemma estimate_p_optimal_empty_grid (prob : list Qc)
    (binflag : list (option bool)) (i : nat) :
  length prob = length binflag →
  binflag !! i = Some (Some true) →
  (∀ j x, binflag !! j = Some (Some true) → prob !! j = Some x → tenth ≤ x) →
  estimate_p_optimal prob binflag = Raise ValueError.
Proof.
  intros Hlen Hi Hhigh.
  destruct (scores_of_good_ok prob binflag Hlen) as (good & Hgood & Hmem).
  destruct (lookup_lt_is_Some_2 prob i) as [x Hx].
  { rewrite Hlen. by eapply lookup_lt_Some. }
  destruct (array_min_ok good) as (m & Hm & Hin & _).
  { intros ->. eapply not_elem_of_nil, Hmem. eauto. }
  apply Hmem in Hin as (j & Hj & Hpj).
  unfold estimate_p_optimal, threshold_grid.
  rewrite bool_decide_true by done. cbn [py_assert]. rewrite bind_Ok.
  rewrite Hgood, bind_Ok, Hm, bind_Ok. cbn [mret result_ret]. rewrite bind_Ok.
  rewrite arange0_empty; [done|apply tenth_pos|].
  rewrite <-(Qcopp_involutive 0). apply Qcopp_le_compat.
  replace (- 0) with (tenth - tenth) by ring.
  unfold Qcminus. apply (proj1 (Qcplus_le_mono_r _ _ _)). by eapply Hhigh.
Qed.

(** C1, as the code has it.  For scores and labels of equal length with a row labelled
    good whose score is below [0.1] (every log-probability is), the optimizer
    returns a candidate [p] of the grid [0, -0.1, -0.2, ...] and the rate
    [c / size], where the cost [c] of [p] is at most the cost of every
    candidate; a candidate of the same cost stands at the position of [p] or
    later in the grid, hence is not larger than [p]: among the candidates of
    least cost the one closest to zero is returned. *)
Theorem estimate_p_optimal_least_cost
    (prob : list Qc) (binflag : list (option bool)) (i : nat) (x : Qc) :
  length prob = length binflag →
  binflag !! i = Some (Some true) →
  prob !! i = Some x →
  x < tenth →
  ∃ P k p c,
    threshold_grid prob binflag = Ok P ∧
    estimate_p_optimal prob binflag
      = Ok (p, Qc_of_nat c / Qc_of_nat (length prob)) ∧
    P !! k = Some p ∧
    cost prob binflag p = Ok c ∧
    ∀ j q, P !! j = Some q →
      ∃ d, cost prob binflag q = Ok d ∧ (c ≤ d)%nat ∧
           (d = c → (k ≤ j)%nat ∧ q ≤ p).
Proof.
  intros Hlen Hlab Hx Hlt.
  destruct (scores_of_good_ok prob binflag Hlen) as (good & Hgood & Hmem).
  destruct (scores_of_bad_ok prob binflag Hlen) as (bad & Hbad).
  assert (Hxin : x ∈ good) by (apply Hmem; eauto).
  destruct (array_min_ok good) as (m & Hm & _ & Hmin).
  { intros ->. by apply elem_of_nil in Hxin. }
  set (P := Qcopp <$> arange0 (- (m - tenth)) tenth).
  assert (HP : threshold_grid prob binflag = Ok P).
  { unfold threshold_grid. rewrite Hgood. cbn. by rewrite Hm. }
  set (g := λ q : Qc,
         (count_if (λ y, bool_decide (y < q)%Qc) good +
          count_if (λ y, bool_decide (q < y)%Qc) bad)%nat).
  assert (Hcost : ∀ q, cost prob binflag q = Ok (g q)).
  { intros q. unfold cost, false_negative, false_positive.
    by rewrite Hgood, Hbad. }
  assert (Herr : mapM (cost prob binflag) P = Ok (g <$> P)).
  { apply mapM_result_ok. intros q _. apply Hcost. }
  assert (HPne : P ≠ []).
  { unfold P. intros Hnil%fmap_nil_inv. revert Hnil.
    apply arange0_nonempty; [apply tenth_pos|].
    replace (- (m - tenth)) with (tenth + - m) by ring.
    apply (proj1 (Qclt_minus_iff m tenth)).
    eapply Qcle_lt_trans; [by apply Hmin|done]. }
  destruct (argmin_spec (g <$> P)) as (k & c & Hk & Hc & Hfirst).
  { by intros ?%fmap_nil_inv. }
  destruct (count_min_spec (g <$> P)) as (c' & Hcm & Hc'in & Hc'min).
  { by intros ?%fmap_nil_inv. }
  assert (c' = c) as ->.
  { apply list_elem_of_lookup in Hc'in as [j' Hj'].
    apply Hfirst in Hj' as [? _].
    apply list_elem_of_lookup_2, Hc'min in Hc. lia. }
  rewrite list_lookup_fmap in Hc.
  destruct (P !! k) as [p|] eqn:Hp; [|done]. cbn in Hc. injection Hc as Hc.
  exists P, k, p, c. split_and!; [done| |done|by rewrite Hcost, Hc|].
  - unfold estimate_p_optimal.
    rewrite bool_decide_true by done. cbn.
    rewrite HP. cbn. rewrite Herr. cbn. rewrite Hk. cbn. rewrite Hp. cbn.
    by rewrite Hcm.
  - intros j q Hq. exists (g q). split; [apply Hcost|].
    assert (Hgq : (g <$> P) !! j = Some (g q)).
    { by rewrite list_lookup_fmap, Hq. }
    apply Hfirst in Hgq as [Hle Htie]. split; [done|].
    intros Heq. specialize (Htie Heq). split; [done|].
    by eapply grid_descending.
Qed.

Lemma estimate_p_optimal_least_cost_witness :
  ∃ P k p c,
    threshold_grid tie_prob tie_binflag = Ok P ∧
    estimate_p_optimal tie_prob tie_binflag
      = Ok (p, Qc_of_nat c / Qc_of_nat (length tie_prob)) ∧
    P !! k = Some p ∧
    cost tie_prob tie_binflag p = Ok c ∧
    ∀ j q, P !! j = Some q →
      ∃ d, cost tie_prob tie_binflag q = Ok d ∧ (c ≤ d)%nat ∧
           (d = c → (k ≤ j)%nat ∧ q ≤ p).
Proof.
  apply (estimate_p_optimal_least_cost tie_prob tie_binflag 0 (Q2Qc (-3 # 20)));
    reflexivity.
Defined.

(** C1, as stated, fails on ties: here all three candidates cost one
    mistake, the optimizer returns [0], and the most negative candidate of
    least cost is [-0.2]. *)
Lemma estimate_p_optimal_tie_not_most_negative :
  threshold_grid tie_prob tie_binflag
    = Ok [Q2Qc 0; Q2Qc (-1 # 10); Q2Qc (-1 # 5)] ∧
  estimate_p_optimal tie_prob tie_binflag = Ok (Q2Qc 0, Q2Qc (1 # 2)) ∧
  cost tie_prob tie_binflag (Q2Qc 0) = Ok 1%nat ∧
  cost tie_prob tie_binflag (Q2Qc (-1 # 5)) = Ok 1%nat ∧
  Q2Qc (-1 # 5) < Q2Qc 0.
Proof. split_and!; reflexivity. Qed.

(** ** Index arrays *)

Lemma set_at_ok {A} (idx : list nat) (v : A) (a : list A) :
  Forall (λ i, (i < length a)%nat) idx →
  ∃ a', set_at idx v a = Ok a' ∧ length a' = length a ∧
        ∀ r, a' !! r = if bool_decide (r ∈ idx) then Some v else a !! r.
Proof.
  intros Hidx. unfold set_at. rewrite bool_decide_true by done.
  eexists. split; [done|].
  induction Hidx as [|i idx Hi _ [IHlen IH]]; cbn.
  - split; [done|]. intros r.
    by rewrite bool_decide_false by apply not_elem_of_nil.
  - split; [by rewrite length_insert|]. intros r.
    destruct (decide (r = i)) as [->|Hne].
    + rewrite bool_decide_true by left.
      by rewrite list_lookup_insert_eq by lia.
    + rewrite list_lookup_insert_ne by done. rewrite IH.
      apply (f_equal (λ b : bool, if b then Some v else a !! r)).
      apply bool_decide_ext. rewrite elem_of_cons.
      split; [by right|]. by intros [?|?].
Qed.

Lemma slices_cover {A} (n : nat) (p : list A) :
  take n p ++ slice n (2 * n) p ++ drop (2 * n) p = p.
Proof.
  unfold slice. rewrite app_assoc.
  replace (take n p) with (take n (take (2 * n) p)).
  - by rewrite !take_drop.
  - rewrite take_take. f_equal. lia.
Qed.

(** Rows picked by pairwise distinct positions of a duplicate-free array. *)
Lemma take_at_distinct (a idx : list nat) :
  NoDup a → NoDup idx → Forall (λ i, (i < length a)%nat) idx →
  ∃ rows, take_at a idx = Ok rows ∧ NoDup rows ∧ length rows = length idx ∧
          ∀ r, r ∈ rows ↔ ∃ j, j ∈ idx ∧ a !! j = Some r.
Proof.
  intros Ha Hidx Hlt.
  destruct (take_at_ok a idx Hlt) as (rows & Hrows & Hall).
  exists rows. split; [done|]. split_and!.
  - apply NoDup_alt. intros k1 k2 r Hk1 Hk2.
    destruct (Forall2_lookup_r _ _ _ _ _ Hall Hk1) as (j1 & Hj1 & Ha1).
    destruct (Forall2_lookup_r _ _ _ _ _ Hall Hk2) as (j2 & Hj2 & Ha2).
    assert (j1 = j2) as -> by (by apply (NoDup_lookup a j1 j2 r)).
    by apply (NoDup_lookup idx k1 k2 j2).
  - symmetry. by eapply Forall2_length.
  - intros r. split.
    + intros [k Hk]%list_elem_of_lookup.
      destruct (Forall2_lookup_r _ _ _ _ _ Hall Hk) as (j & Hj & Haj).
      exists j. split; [|done]. by eapply list_elem_of_lookup_2.
    + intros (j & [k Hk]%list_elem_of_lookup & Haj).
      destruct (Forall2_lookup_l _ _ _ _ _ Hall Hk) as (y & Hy & Hay).
      assert (y = r) as -> by congruence.
      by eapply list_elem_of_lookup_2.
Qed.

(** ** Labels of the partitioner *)

Lemma length_ma_set_where {A} (w : list bool) (v : A) (a : list (option A)) :
  length w = length a → length (ma_set_where w v a) = length a.
Proof. intros Hlen. unfold ma_set_where. rewrite length_zip_with. lia. Qed.

Lemma length_flag_eq (flag : list (option Z)) (f : Z) :
  length (flag_eq flag f) = length flag.
Proof. unfold flag_eq. by rewrite length_fmap. Qed.

Lemma mark_flags_spec (flag : list (option Z)) (fs : list Z) (v : bool)
    (ind : list (option bool)) :
  length ind = length flag →
  length (mark_flags flag fs v ind) = length flag ∧
  ∀ r, mark_flags flag fs v ind !! r
       = if flag_in fs flag r then Some (Some v) else ind !! r.
Proof.
  unfold mark_flags. revert ind.
  induction fs as [|f fs IH]; intros ind Hlen; cbn.
  - split; [done|]. intros r. unfold flag_in.
    destruct (flag !! r) as [[g|]|]; [|done..].
    by rewrite bool_decide_false by apply not_elem_of_nil.
  - destruct (IH (ma_set_where (flag_eq flag f) v ind)) as [IHlen IHr].
    { rewrite length_ma_set_where; [done|]. by rewrite length_flag_eq. }
    split; [done|]. intros r. rewrite IHr.
    unfold flag_in, ma_set_where, flag_eq.
    rewrite lookup_zip_with, list_lookup_fmap.
    destruct (flag !! r) as [o|] eqn:Hr; cbn.
    + assert (is_Some (ind !! r)) as [b Hb].
      { apply lookup_lt_is_Some. rewrite Hlen. by eapply lookup_lt_Some. }
      rewrite Hb. cbn. destruct o as [g|]; [|by rewrite bool_decide_false].
      destruct (decide (g = f)) as [->|Hne].
      * rewrite (bool_decide_true (Some f = Some f)) by done.
        rewrite (bool_decide_true (f ∈ f :: fs)) by left.
        by case_bool_decide.
      * rewrite (bool_decide_false (Some g = Some f)) by congruence.
        apply (f_equal (λ c : bool, if c then Some (Some v) else Some b)).
        apply bool_decide_ext. rewrite elem_of_cons.
        split; [by right|]. by intros [?|?].
    + apply lookup_ge_None in Hr.
      by rewrite (proj2 (lookup_ge_None ind r)) by lia.
Qed.

(** The label of a row: bad when its code is a bad one, else good when its
    code is a good one, else missing. *)
Lemma flag_labels_lookup (flag : list (option Z)) (gf bf : list Z) (r : nat) :
  (r < length flag)%nat →
  flag_labels flag gf bf !! r
  = Some (if flag_in bf flag r then Some false
          else if flag_in gf flag r then Some true else None).
Proof.
  intros Hr. unfold flag_labels.
  destruct (mark_flags_spec flag gf true (replicate (length flag) None))
    as [Hlen1 Hr1]; [by rewrite length_replicate|].
  destruct (mark_flags_spec flag bf false
              (mark_flags flag gf true (replicate (length flag) None)))
    as [Hlen2 Hr2]; [done|].
  rewrite Hr2, Hr1. destruct (flag_in bf flag r); [done|].
  destruct (flag_in gf flag r); [done|]. by apply lookup_replicate_2.
Qed.

Lemma length_flag_labels (flag : list (option Z)) (gf bf : list Z) :
  length (flag_labels flag gf bf) = length flag.
Proof.
  unfold flag_labels.
  apply mark_flags_spec, mark_flags_spec. by rewrite length_replicate.
Qed.

Lemma elem_of_rows_labelled (ind : list (option bool)) (v : bool) (r : nat) :
  r ∈ rows_labelled ind v ↔ ind !! r = Some (Some v).
Proof.
  unfold rows_labelled. rewrite elem_of_nonzero, ma_filled_false_lookup.
  unfold ma_and, ma_eq, ma_valid.
  rewrite lookup_zip_with, !list_lookup_fmap.
  destruct (ind !! r) as [[b|]|]; cbn; [|by split..].
  rewrite andb_true_r. by destruct b, v; cbn; split.
Qed.

Lemma NoDup_rows_labelled (ind : list (option bool)) (v : bool) :
  NoDup (rows_labelled ind v).
Proof. apply NoDup_nonzero. Qed.

Lemma rows_labelled_lt (ind : list (option bool)) (v : bool) (r : nat) :
  r ∈ rows_labelled ind v → (r < length ind)%nat.
Proof. intros Hr%elem_of_rows_labelled. by eapply lookup_lt_Some. Qed.

(** ** Rounded shares *)

Lemma py_round_nonneg (q : Qc) :
  0 ≤ q → py_round q = Qfloor (this q + (1 # 2))%Q.
Proof.
  intros Hq. unfold py_round. rewrite decide_True by done.
  apply Qfloor_comp. cbn. by rewrite Qred_correct.
Qed.

Lemma round_fifth (G : nat) :
  py_round (Qc_of_nat G * Q2Qc (2 # 10)) = ((2 * Z.of_nat G + 5) / 10)%Z.
Proof.
  rewrite py_round_nonneg.
  - rewrite Zdiv_Qdiv. apply Qfloor_comp. cbn. rewrite !Qred_correct.
    unfold Qeq. cbn. lia.
  - apply Qcmult_nonneg_nonneg; [|done]. apply (Qc_of_nat_le 0 G). lia.
Qed.

Lemma round_half (B : nat) :
  py_round (Qc_of_nat B * Q2Qc (5 # 10)) = ((Z.of_nat B + 1) / 2)%Z.
Proof.
  rewrite py_round_nonneg.
  - rewrite Zdiv_Qdiv. apply Qfloor_comp. cbn. rewrite !Qred_correct.
    unfold Qeq. cbn. lia.
  - apply Qcmult_nonneg_nonneg; [|done]. apply (Qc_of_nat_le 0 B). lia.
Qed.

(** Two rounded fifths of the good rows never exceed the good rows, and
    the rounded half of the bad rows never exceeds the bad rows. *)
Lemma two_fifths_fit (G : nat) :
  (2 * Z.to_nat (py_round (Qc_of_nat G * Q2Qc (2 # 10))) ≤ G)%nat.
Proof.
  rewrite round_fifth.
  pose proof (Z.div_mod (2 * Z.of_nat G + 5) 10 ltac:(lia)) as Hdiv.
  pose proof (Z.mod_pos_bound (2 * Z.of_nat G + 5) 10 ltac:(lia)) as Hmod.
  lia.
Qed.

Lemma half_fits (B : nat) :
  (Z.to_nat (py_round (Qc_of_nat B * Q2Qc (5 # 10))) ≤ B)%nat.
Proof.
  rewrite round_half.
  pose proof (Z.div_mod (Z.of_nat B + 1) 2 ltac:(lia)) as Hdiv.
  pose proof (Z.mod_pos_bound (Z.of_nat B + 1) 2 ltac:(lia)) as Hmod.
  lia.
Qed.

(** ** Picking rows through a permutation *)

Lemma take_at_Ok {A} (a : list A) (idx : list nat) (l : list A) :
  take_at a idx = Ok l ↔ Forall2 (λ i x, a !! i = Some x) idx l.
Proof.
  unfold take_at. rewrite <-mapM_Some.
  destruct (mapM _ idx); cbn; split; congruence.
Qed.

Lemma take_at_permutation (a perm : list nat) :
  NoDup a → perm ≡ₚ seq 0 (length a) →
  ∃ rows, take_at a perm = Ok rows ∧ rows ≡ₚ a.
Proof.
  intros Ha Hperm.
  assert (Hin : ∀ j, j ∈ perm ↔ (j < length a)%nat).
  { intros j. rewrite Hperm, elem_of_seq. lia. }
  destruct (take_at_distinct a perm Ha) as (rows & Hrows & Hnd & _ & Hmem).
  { rewrite Hperm. apply NoDup_seq. }
  { apply Forall_forall. intros j. by rewrite Hin. }
  exists rows. split; [done|]. apply NoDup_Permutation; [done..|].
  intros r. rewrite Hmem. split.
  - intros (j & _ & Hj). by eapply list_elem_of_lookup_2.
  - intros [j Hj]%list_elem_of_lookup. exists j. split; [|done].
    apply Hin. by eapply lookup_lt_Some.
Qed.

(** The three slices of a permutation pick three row lists that together
    are a rearrangement of the array. *)
Lemma take_at_three_slices (a perm : list nat) (n : nat) :
  NoDup a → perm ≡ₚ seq 0 (length a) →
  ∃ r1 r2 r3,
    take_at a (take n perm) = Ok r1 ∧
    take_at a (slice n (2 * n) perm) = Ok r2 ∧
    take_at a (drop (2 * n) perm) = Ok r3 ∧
    r1 ++ r2 ++ r3 ≡ₚ a ∧
    length r1 = (n `min` length a)%nat ∧
    length r2 = ((2 * n) `min` length a - n)%nat.
Proof.
  intros Ha Hperm.
  destruct (take_at_permutation a perm Ha Hperm) as (rows & Hrows & Hp).
  apply take_at_Ok in Hrows. rewrite <-(slices_cover n perm) in Hrows.
  apply Forall2_app_inv_l in Hrows as (r1 & r23 & H1 & H23 & ->).
  apply Forall2_app_inv_l in H23 as (r2 & r3 & H2 & H3 & ->).
  assert (Hlen : length perm = length a).
  { by rewrite Hperm, length_seq. }
  exists r1, r2, r3. rewrite !take_at_Ok. split_and!; [done..| |].
  - rewrite <-(Forall2_length _ _ _ H1), length_take. lia.
  - rewrite <-(Forall2_length _ _ _ H2). unfold slice.
    rewrite length_drop, length_take. lia.
Qed.

Lemma take_at_two_slices (a perm : list nat) (n : nat) :
  NoDup a → perm ≡ₚ seq 0 (length a) →
  ∃ r1 r2,
    take_at a (take n perm) = Ok r1 ∧
    take_at a (drop n perm) = Ok r2 ∧
    r1 ++ r2 ≡ₚ a ∧
    length r1 = (n `min` length a)%nat.
Proof.
  intros Ha Hperm.
  destruct (take_at_permutation a perm Ha Hperm) as (rows & Hrows & Hp).
  apply take_at_Ok in Hrows. rewrite <-(take_drop n perm) in Hrows.
  apply Forall2_app_inv_l in Hrows as (r1 & r2 & H1 & H2 & ->).
  assert (Hlen : length perm = length a).
  { by rewrite Hperm, length_seq. }
  exists r1, r2. rewrite !take_at_Ok. split_and!; [done..|].
  rewrite <-(Forall2_length _ _ _ H1), length_take. lia.
Qed.

(** ** The partitioner *)

Lemma selected_true (a : list bool) (r : nat) :
  selected a r = true ↔ a !! r = Some true.
Proof. unfold selected. destruct (a !! r) as [[]|]; cbn; naive_solver. Qed.

Lemma selected_set_at (rows : list nat) (a a' : list bool) (r : nat) :
  (∀ r, a' !! r = if bool_decide (r ∈ rows) then Some true else a !! r) →
  selected a' r = bool_decide (r ∈ rows) || selected a r.
Proof. intros Ha'. unfold selected. rewrite Ha'. by case_bool_decide. Qed.

Lemma selected_replicate_false (N r : nat) :
  selected (replicate N false) r = false.
Proof.
  unfold selected. destruct (replicate N false !! r) as [b|] eqn:Hb; [|done].
  by apply lookup_replicate_1 in Hb as [-> _].
Qed.

Lemma selected_cover (a : list bool) (l1 l2 : list nat) :
  (∀ r, selected a r = bool_decide (r ∈ l1) || bool_decide (r ∈ l2)) →
  ∀ r, selected a r = true ↔ r ∈ l1 ∨ r ∈ l2.
Proof.
  intros Ha r. by rewrite Ha, orb_true_iff, !bool_decide_eq_true.
Qed.

Section partitioner_props.
Context {rng : Type} (permutation : nat → rng → list nat * rng).
Hypothesis permutation_ok : ∀ n s, (permutation n s).1 ≡ₚ seq 0 n.

(** What a call does: it never raises, and the three index sets are read
    off three lists of good rows and two lists of bad rows. *)
Lemma split_data_groups_with_spec (gf bf : list Z) (flag : list (option Z))
    (s : rng) :
  let ind := flag_labels flag gf bf in
  let good := rows_labelled ind true in
  let bad := rows_labelled ind false in
  let nG := Z.to_nat (py_round (Qc_of_nat (length good) * Q2Qc (2 # 10))) in
  let nB := Z.to_nat (py_round (Qc_of_nat (length bad) * Q2Qc (5 # 10))) in
  ∃ g s' tg eg fg tb eb,
    split_data_groups_with permutation gf bf flag s = Ok (g, s') ∧
    length (fit g) = length flag ∧
    length (test g) = length flag ∧
    length (err g) = length flag ∧
    tg ++ eg ++ fg ≡ₚ good ∧
    tb ++ eb ≡ₚ bad ∧
    length tg = nG ∧ length eg = nG ∧ length tb = nB ∧
    (∀ r, selected (fit g) r = bool_decide (r ∈ fg)) ∧
    (∀ r, selected (test g) r
          = bool_decide (r ∈ tb) || bool_decide (r ∈ tg)) ∧
    (∀ r, selected (err g) r
          = bool_decide (r ∈ eb) || bool_decide (r ∈ eg)).
Proof.
  intros ind good bad nG nB.
  unfold split_data_groups_with. fold ind. fold good. fold bad.
  pose proof (permutation_ok (length good) s) as Hpg.
  destruct (permutation (length good) s) as [pg s1]. cbn in Hpg.
  pose proof (permutation_ok (length bad) s1) as Hpb.
  destruct (permutation (length bad) s1) as [pb s2]. cbn in Hpb.
  fold nG. fold nB.
  destruct (take_at_three_slices good pg nG)
    as (tg & eg & fg & Htg & Heg & Hfg & Hperm_g & Hltg & Hleg);
    [apply NoDup_rows_labelled|done|].
  destruct (take_at_two_slices bad pb nB)
    as (tb & eb & Htb & Heb & Hperm_b & Hltb);
    [apply NoDup_rows_labelled|done|].
  assert (HN : length ind = length flag) by apply length_flag_labels.
  assert (Hgood_lt : ∀ r, r ∈ tg ++ eg ++ fg → (r < length ind)%nat).
  { intros r Hr. rewrite Hperm_g in Hr. by eapply rows_labelled_lt. }
  assert (Hbad_lt : ∀ r, r ∈ tb ++ eb → (r < length ind)%nat).
  { intros r Hr. rewrite Hperm_b in Hr. by eapply rows_labelled_lt. }
  set (base := replicate (length ind) false).
  assert (Hbase : length base = length ind) by apply length_replicate.
  destruct (set_at_ok tg true base) as (t1 & Ht1 & Hlt1 & Hrt1).
  { apply Forall_forall. intros r Hr. rewrite Hbase.
    apply Hgood_lt. rewrite !elem_of_app. by left. }
  destruct (set_at_ok eg true base) as (e1 & He1 & Hle1 & Hre1).
  { apply Forall_forall. intros r Hr. rewrite Hbase.
    apply Hgood_lt. rewrite !elem_of_app. right. by left. }
  destruct (set_at_ok fg true base) as (f1 & Hf1 & Hlf1 & Hrf1).
  { apply Forall_forall. intros r Hr. rewrite Hbase.
    apply Hgood_lt. rewrite !elem_of_app. right. by right. }
  destruct (set_at_ok tb true t1) as (t2 & Ht2 & Hlt2 & Hrt2).
  { apply Forall_forall. intros r Hr. rewrite Hlt1, Hbase.
    apply Hbad_lt. rewrite !elem_of_app. by left. }
  destruct (set_at_ok eb true e1) as (e2 & He2 & Hle2 & Hre2).
  { apply Forall_forall. intros r Hr. rewrite Hle1, Hbase.
    apply Hbad_lt. rewrite !elem_of_app. by right. }
  exists (Groups f1 t2 e2), s2, tg, eg, fg, tb, eb.
  pose proof (two_fifths_fit (length good)) as H2n. fold nG in H2n.
  pose proof (half_fits (length bad)) as Hn. fold nB in Hn.
  split_and!.
  - rewrite Htg, bind_Ok, Ht1, bind_Ok, Heg, bind_Ok, He1, bind_Ok.
    rewrite Hfg, bind_Ok, Hf1, bind_Ok, Htb, bind_Ok, Ht2, bind_Ok.
    by rewrite Heb, bind_Ok, He2, bind_Ok.
  - cbn [fit]. congruence.
  - cbn [test]. congruence.
  - cbn [err]. congruence.
  - done.
  - done.
  - lia.
  - lia.
  - lia.
  - intros r. cbn [fit test err].
    rewrite (selected_set_at fg base f1 r Hrf1).
    unfold base. by rewrite selected_replicate_false, orb_false_r.
  - intros r. cbn [fit test err].
    rewrite (selected_set_at tb t1 t2 r Hrt2).
    rewrite (selected_set_at tg base t1 r Hrt1).
    unfold base. by rewrite selected_replicate_false, orb_false_r.
  - intros r. cbn [fit test err].
    rewrite (selected_set_at eb e1 e2 r Hre2).
    rewrite (selected_set_at eg base e1 r Hre1).
    unfold base. by rewrite selected_replicate_false, orb_false_r.
Qed.
End partitioner_props.

Lemma rotate_permutation_ok (k n : nat) :
  (rotate_permutation k n).1 ≡ₚ seq 0 k.
Proof.
  cbn. unfold rotate. rewrite Permutation_app_comm. by rewrite take_drop.
Qed.

Lemma default_flags_exclusive (flag : list (option Z)) (r : nat) :
  flag_in default_bad_flags flag r = true →
  flag_in default_good_flags flag r = true → False.
Proof.
  unfold flag_in. destruct (flag !! r) as [[f|]|]; [|done..].
  rewrite !bool_decide_eq_true. unfold default_bad_flags, default_good_flags.
  rewrite !elem_of_cons, !elem_of_nil. lia.
Qed.

(** With the default codes a row is labelled good exactly when its flag is
    1 or 2, and bad exactly when its flag is 3 or 4. *)
Lemma default_rows_labelled (flag : list (option Z)) (r : nat) :
  let ind := flag_labels flag default_good_flags default_bad_flags in
  (r ∈ rows_labelled ind true ↔ flag_in default_good_flags flag r = true) ∧
  (r ∈ rows_labelled ind false ↔ flag_in default_bad_flags flag r = true).
Proof.
  cbv zeta. rewrite !elem_of_rows_labelled.
  destruct (decide (r < length flag)%nat) as [Hlt|Hge].
  - rewrite flag_labels_lookup by done.
    pose proof (default_flags_exclusive flag r) as Hexcl.
    destruct (flag_in default_bad_flags flag r),
             (flag_in default_good_flags flag r); try done.
    by destruct Hexcl.
  - rewrite (proj2 (lookup_ge_None _ r)) by (rewrite length_flag_labels; lia).
    unfold flag_in. by rewrite (proj2 (lookup_ge_None flag r)) by lia.
Qed.

Lemma count_rows_length (f : nat → bool) (N : nat) (l : list nat) :
  NoDup l → (∀ r, r ∈ l ↔ (r < N)%nat ∧ f r = true) →
  count_rows f N = length l.
Proof.
  intros Hnd Hmem. unfold count_rows, count_if.
  apply Permutation_length, NoDup_Permutation; [|done|].
  - apply NoDup_filter, NoDup_seq.
  - intros r. rewrite list_elem_of_filter, elem_of_seq, Hmem.
    split.
    + intros [Hf [_ Hlt]]. split; [lia|done].
    + intros [Hlt Hf]. split; [done|lia].
Qed.

Lemma flag_in_lt (fs : list Z) (flag : list (option Z)) (r : nat) :
  flag_in fs flag r = true → (r < length flag)%nat.
Proof.
  unfold flag_in. destruct (flag !! r) as [o|] eqn:Hr; [|done].
  intros _. by eapply lookup_lt_Some.
Qed.

Section partitioner_claims.
Context {rng : Type} (permutation : nat → rng → list nat * rng).
Hypothesis permutation_ok : ∀ n s, (permutation n s).1 ≡ₚ seq 0 n.

(** The facts about a call with the default codes from which the claims
    follow. *)
Lemma split_data_groups_facts (flag : list (option Z)) (s : rng) :
  let G := count_rows (flag_in default_good_flags flag) (length flag) in
  let B := count_rows (flag_in default_bad_flags flag) (length flag) in
  ∃ g s' tg eg fg tb eb,
    split_data_groups permutation flag s = Ok (g, s') ∧
    (length (fit g) = length flag ∧ length (test g) = length flag ∧
     length (err g) = length flag) ∧
    NoDup (tg ++ eg ++ fg) ∧ NoDup (tb ++ eb) ∧
    (∀ r, r ∈ tg ++ eg ++ fg ↔ flag_in default_good_flags flag r = true) ∧
    (∀ r, r ∈ tb ++ eb ↔ flag_in default_bad_flags flag r = true) ∧
    (length tg = Z.to_nat (py_round (Qc_of_nat G * Q2Qc (2 # 10))) ∧
     length eg = Z.to_nat (py_round (Qc_of_nat G * Q2Qc (2 # 10))) ∧
     length tb = Z.to_nat (py_round (Qc_of_nat B * Q2Qc (5 # 10))) ∧
     length (tg ++ eg ++ fg) = G ∧ length (tb ++ eb) = B) ∧
    (∀ r, selected (fit g) r = bool_decide (r ∈ fg)) ∧
    (∀ r, selected (test g) r
          = bool_decide (r ∈ tb) || bool_decide (r ∈ tg)) ∧
    (∀ r, selected (err g) r
          = bool_decide (r ∈ eb) || bool_decide (r ∈ eg)).
Proof.
  intros G B.
  destruct (split_data_groups_with_spec permutation permutation_ok
              default_good_flags default_bad_flags flag s)
    as (g & s' & tg & eg & fg & tb & eb & Hrun & Hlf & Hlt & Hle & Hpg & Hpb
        & Hntg & Hneg & Hntb & Hfit & Htest & Herr).
  set (ind := flag_labels flag default_good_flags default_bad_flags) in *.
  assert (Hgood : ∀ r, r ∈ tg ++ eg ++ fg
                       ↔ flag_in default_good_flags flag r = true).
  { intros r. rewrite Hpg. apply default_rows_labelled. }
  assert (Hbad : ∀ r, r ∈ tb ++ eb
                      ↔ flag_in default_bad_flags flag r = true).
  { intros r. rewrite Hpb. apply default_rows_labelled. }
  assert (HG : length (rows_labelled ind true) = G).
  { symmetry. apply count_rows_length; [apply NoDup_rows_labelled|].
    intros r. rewrite <-Hpg, Hgood. split; [|by intros [_ ?]].
    intros Hr. split; [by eapply flag_in_lt|done]. }
  assert (HB : length (rows_labelled ind false) = B).
  { symmetry. apply count_rows_length; [apply NoDup_rows_labelled|].
    intros r. rewrite <-Hpb, Hbad. split; [|by intros [_ ?]].
    intros Hr. split; [by eapply flag_in_lt|done]. }
  exists g, s', tg, eg, fg, tb, eb.
  rewrite HG in Hntg, Hneg. rewrite HB in Hntb.
  split_and!; try done.
  - rewrite Hpg. apply NoDup_rows_labelled.
  - rewrite Hpb. apply NoDup_rows_labelled.
  - by rewrite Hpg.
  - by rewrite Hpb.
Qed.
End partitioner_claims.

(** C2.  Whatever the generator draws, [split_data_groups] returns three
    index sets over the rows of the flag array that are pairwise disjoint
    and whose union is exactly the set of rows flagged 1, 2, 3 or 4; a row
    with a missing or another flag is in none of them. *)
Theorem split_data_groups_partition {rng : Type}
    (permutation : nat → rng → list nat * rng)
    (permutation_ok : ∀ n s, (permutation n s).1 ≡ₚ seq 0 n)
    (flag : list (option Z)) (s : rng) :
  ∃ g s',
    split_data_groups permutation flag s = Ok (g, s') ∧
    length (fit g) = length flag ∧
    length (test g) = length flag ∧
    length (err g) = length flag ∧
    ∀ r,
      selected (fit g) r && selected (test g) r = false ∧
      selected (fit g) r && selected (err g) r = false ∧
      selected (test g) r && selected (err g) r = false ∧
      selected (fit g) r || selected (test g) r || selected (err g) r
      = flag_in default_good_flags flag r || flag_in default_bad_flags flag r.
Proof.
  destruct (split_data_groups_facts permutation permutation_ok flag s)
    as (g & s' & tg & eg & fg & tb & eb & Hrun & (Hlf & Hlt & Hle) & Hndg & Hndb
        & Hgood & Hbad & _ & Hfit & Htest & Herr).
  exists g, s'. split_and!; [done..|]. intros r.
  apply NoDup_app in Hndg as (_ & Htg & Hndg).
  apply NoDup_app in Hndg as (_ & Heg & _).
  apply NoDup_app in Hndb as (_ & Htb & _).
  specialize (Hgood r). specialize (Hbad r).
  specialize (Htg r). specialize (Heg r). specialize (Htb r).
  pose proof (default_flags_exclusive flag r) as Hexcl.
  rewrite !elem_of_app in Hgood. rewrite elem_of_app in Hbad, Htg.
  pose proof (selected_cover _ _ _ Htest r) as HT.
  pose proof (selected_cover _ _ _ Herr r) as HE.
  assert (HF : selected (fit g) r = true ↔ r ∈ fg).
  { by rewrite Hfit, bool_decide_eq_true. }
  clear -Hgood Hbad Htg Heg Htb Hexcl HT HE HF.
  split_and!.
  - apply not_true_iff_false. rewrite andb_true_iff. tauto.
  - apply not_true_iff_false. rewrite andb_true_iff. tauto.
  - apply not_true_iff_false. rewrite andb_true_iff. tauto.
  - apply eq_true_iff_eq. rewrite !orb_true_iff. tauto.
Qed.

(** C5.  With [G] rows flagged good and [B] rows flagged bad, the returned
    sets hold [round(0.2*G)] good rows in [test], as many in [err], the
    other good rows in [fit], [round(0.5*B)] bad rows in [test], the other
    bad rows in [err], and no bad row in [fit]. *)
Theorem split_data_groups_shares {rng : Type}
    (permutation : nat → rng → list nat * rng)
    (permutation_ok : ∀ n s, (permutation n s).1 ≡ₚ seq 0 n)
    (flag : list (option Z)) (s : rng) :
  let N := length flag in
  let good := flag_in default_good_flags flag in
  let bad := flag_in default_bad_flags flag in
  let G := count_rows good N in
  let B := count_rows bad N in
  let nG := Z.to_nat (py_round (Qc_of_nat G * Q2Qc (2 # 10))) in
  let nB := Z.to_nat (py_round (Qc_of_nat B * Q2Qc (5 # 10))) in
  ∃ g s',
    split_data_groups permutation flag s = Ok (g, s') ∧
    count_rows (λ r, good r && selected (test g) r) N = nG ∧
    count_rows (λ r, good r && selected (err g) r) N = nG ∧
    count_rows (λ r, good r && selected (fit g) r) N = (G - 2 * nG)%nat ∧
    count_rows (λ r, bad r && selected (test g) r) N = nB ∧
    count_rows (λ r, bad r && selected (err g) r) N = (B - nB)%nat ∧
    count_rows (λ r, bad r && selected (fit g) r) N = 0%nat.
Proof.
  intros N good bad G B nG nB.
  destruct (split_data_groups_facts permutation permutation_ok flag s)
    as (g & s' & tg & eg & fg & tb & eb & Hrun & _ & Hndg & Hndb
        & Hgood & Hbad & (Hltg & Hleg & Hltb & HlG & HlB) & Hfit & Htest & Herr).
  change (length tg = nG) in Hltg. change (length eg = nG) in Hleg.
  change (length tb = nB) in Hltb. change (length (tg ++ eg ++ fg) = G) in HlG.
  change (length (tb ++ eb) = B) in HlB.
  change (∀ r, r ∈ tg ++ eg ++ fg ↔ good r = true) in Hgood.
  change (∀ r, r ∈ tb ++ eb ↔ bad r = true) in Hbad.
  clearbody nG nB G B.
  exists g, s'. split; [done|].
  pose proof Hndg as Hndg'. pose proof Hndb as Hndb'.
  apply NoDup_app in Hndg' as (Hnd_tg & Htg & Hndg').
  apply NoDup_app in Hndg' as (Hnd_eg & Heg & Hnd_fg).
  apply NoDup_app in Hndb' as (Hnd_tb & Htb & Hnd_eb).
  rewrite !length_app in HlG. rewrite length_app in HlB.
  assert (Hpoint : ∀ r,
    (r ∈ tg ↔ (r < N)%nat ∧ good r && selected (test g) r = true) ∧
    (r ∈ eg ↔ (r < N)%nat ∧ good r && selected (err g) r = true) ∧
    (r ∈ fg ↔ (r < N)%nat ∧ good r && selected (fit g) r = true) ∧
    (r ∈ tb ↔ (r < N)%nat ∧ bad r && selected (test g) r = true) ∧
    (r ∈ eb ↔ (r < N)%nat ∧ bad r && selected (err g) r = true) ∧
    (r ∈ [] ↔ (r < N)%nat ∧ bad r && selected (fit g) r = true)).
  { intros r. rewrite !andb_true_iff, elem_of_nil.
    rewrite (selected_cover _ _ _ Htest), (selected_cover _ _ _ Herr).
    rewrite Hfit, bool_decide_eq_true.
    specialize (Hgood r). specialize (Hbad r).
    specialize (Htg r). specialize (Heg r). specialize (Htb r).
    pose proof (default_flags_exclusive flag r) as Hexcl.
    change (bad r = true → good r = true → False) in Hexcl.
    pose proof (flag_in_lt default_good_flags flag r) as Hlt_g.
    pose proof (flag_in_lt default_bad_flags flag r) as Hlt_b.
    change (good r = true → (r < N)%nat) in Hlt_g.
    change (bad r = true → (r < N)%nat) in Hlt_b.
    rewrite !elem_of_app in Hgood. rewrite elem_of_app in Hbad, Htg.
    clear -Hgood Hbad Htg Heg Htb Hexcl Hlt_g Hlt_b. tauto. }
  split_and!.
  - trans (length tg); [|exact Hltg].
    apply count_rows_length; [done|]. intros r. apply Hpoint.
  - trans (length eg); [|exact Hleg].
    apply count_rows_length; [done|]. intros r. apply Hpoint.
  - trans (length fg); [|lia].
    apply count_rows_length; [done|]. intros r. apply Hpoint.
  - trans (length tb); [|exact Hltb].
    apply count_rows_length; [done|]. intros r. apply Hpoint.
  - trans (length eb); [|lia].
    apply count_rows_length; [done|]. intros r. apply Hpoint.
  - apply (count_rows_length _ _ []); [constructor|]. intros r. apply Hpoint.
Qed.

Lemma split_data_groups_partition_witness :
  ∃ g s',
    split_data_groups rotate_permutation sample_flag 1%nat = Ok (g, s') ∧
    length (fit g) = length sample_flag ∧
    length (test g) = length sample_flag ∧
    length (err g) = length sample_flag ∧
    ∀ r,
      selected (fit g) r && selected (test g) r = false ∧
      selected (fit g) r && selected (err g) r = false ∧
      selected (test g) r && selected (err g) r = false ∧
      selected (fit g) r || selected (test g) r || selected (err g) r
      = flag_in default_good_flags sample_flag r
        || flag_in default_bad_flags sample_flag r.
Proof.
  apply (split_data_groups_partition rotate_permutation rotate_permutation_ok
           sample_flag 1%nat).
Defined.

Lemma split_data_groups_shares_witness :
  ∃ g s',
    split_data_groups rotate_permutation sample_flag 1%nat = Ok (g, s') ∧
    count_rows (λ r, flag_in default_good_flags sample_flag r
                     && selected (test g) r) 14 = 1%nat ∧
    count_rows (λ r, flag_in default_good_flags sample_flag r
                     && selected (err g) r) 14 = 1%nat ∧
    count_rows (λ r, flag_in default_good_flags sample_flag r
                     && selected (fit g) r) 14 = 5%nat ∧
    count_rows (λ r, flag_in default_bad_flags sample_flag r
                     && selected (test g) r) 14 = 2%nat ∧
    count_rows (λ r, flag_in default_bad_flags sample_flag r
                     && selected (err g) r) 14 = 2%nat ∧
    count_rows (λ r, flag_in default_bad_flags sample_flag r
                     && selected (fit g) r) 14 = 0%nat.
Proof.
  apply (split_data_groups_shares rotate_permutation rotate_permutation_ok
           sample_flag 1%nat).
Defined.

(** C9, as the code has it.  A flag array without any row flagged 1, 2, 3 or 4, the
    empty array included, raises nothing: the partitioner returns three
    all-false index sets of the length of the input. *)
Theorem split_data_groups_unlabelled {rng : Type}
    (permutation : nat → rng → list nat * rng)
    (permutation_ok : ∀ n s, (permutation n s).1 ≡ₚ seq 0 n)
    (flag : list (option Z)) (s : rng) :
  (∀ r, flag_in default_good_flags flag r = false ∧
        flag_in default_bad_flags flag r = false) →
  ∃ s',
    split_data_groups permutation flag s
    = Ok (Groups (replicate (length flag) false)
                 (replicate (length flag) false)
                 (replicate (length flag) false), s').
Proof.
  intros Hnone.
  destruct (split_data_groups_facts permutation permutation_ok flag s)
    as (g & s' & tg & eg & fg & tb & eb & Hrun & (Hlf & Hlt & Hle) & _ & _
        & Hgood & Hbad & _ & Hfit & Htest & Herr).
  assert (Hall : ∀ a : list bool, length a = length flag →
            (∀ r, selected a r = false) → a = replicate (length flag) false).
  { intros a Hlen Hsel. apply list_eq. intros r.
    destruct (decide (r < length flag)%nat) as [Hr|Hr].
    - rewrite lookup_replicate_2 by done.
      specialize (Hsel r). unfold selected in Hsel.
      destruct (lookup_lt_is_Some_2 a r) as [b Hb]; [lia|].
      rewrite Hb in Hsel |- *. cbn in Hsel. by subst.
    - rewrite (proj2 (lookup_ge_None a r)) by lia.
      symmetry. apply lookup_replicate_None. lia. }
  assert (Hno_good : ∀ r, r ∉ tg ++ eg ++ fg).
  { intros r Hr%Hgood. destruct (Hnone r) as [Hg _]. congruence. }
  assert (Hno_bad : ∀ r, r ∉ tb ++ eb).
  { intros r Hr%Hbad. destruct (Hnone r) as [_ Hb]. congruence. }
  assert (Hoff : ∀ r, selected (fit g) r = false ∧
                      selected (test g) r = false ∧
                      selected (err g) r = false).
  { intros r. rewrite Hfit, Htest, Herr.
    specialize (Hno_good r). specialize (Hno_bad r).
    rewrite !elem_of_app in Hno_good. rewrite elem_of_app in Hno_bad.
    repeat case_bool_decide; cbn; split_and!; try done; exfalso; tauto. }
  exists s'. rewrite Hrun. destruct g as [f t e]. cbn in *.
  rewrite (Hall f), (Hall t), (Hall e); [done|done|..].
  all: try done; intros r; apply Hoff.
Qed.

Lemma split_data_groups_unlabelled_witness :
  ∃ s',
    split_data_groups rotate_permutation unlabelled_flag 0%nat
    = Ok (Groups (replicate (length unlabelled_flag) false)
                 (replicate (length unlabelled_flag) false)
                 (replicate (length unlabelled_flag) false), s').
Proof.
  apply (split_data_groups_unlabelled rotate_permutation rotate_permutation_ok
           unlabelled_flag 0%nat).
  intros [|[|[|r]]]; split; reflexivity.
Defined.

(** C9, as stated, fails: on the empty flag array and on an array without
    valid entries the partitioner returns a partition instead of raising. *)
Lemma split_data_groups_no_error :
  split_data_groups rotate_permutation [] 0%nat = Ok (Groups [] [] [], 2%nat) ∧
  split_data_groups rotate_permutation unlabelled_flag 0%nat
  = Ok (Groups [false; false; false] [false; false; false]
               [false; false; false], 2%nat).
Proof. split; reflexivity. Qed.

(** ** Boolean indexing *)

Lemma length_gather {A} (ind : list bool) (a : list A) :
  length ind = length a → length (gather ind a) = count_if id ind.
Proof.
  revert a. induction ind as [|b ind IH]; intros [|x a] Hlen; try done.
  cbn in Hlen. unfold count_if. cbn. destruct b; cbn.
  - rewrite decide_True by done. cbn. f_equal. apply IH. lia.
  - rewrite decide_False by done. apply IH. lia.
Qed.

Lemma ma_valid_cons {A} (o : option A) (col : list (option A)) :
  ma_valid (o :: col) = bool_decide (is_Some o) :: ma_valid col.
Proof. done. Qed.

Lemma length_compressed {A} (col : list (option A)) :
  length (compressed col) = count_if id (ma_valid col).
Proof.
  induction col as [|[x|] col IH]; [done| |].
  - rewrite ma_valid_cons, bool_decide_true by eauto.
    unfold count_if. cbn. rewrite decide_True by done. cbn. f_equal. apply IH.
  - rewrite ma_valid_cons, bool_decide_false by (by intros [??]).
    unfold count_if. cbn. rewrite decide_False by done. apply IH.
Qed.

Lemma length_ma_valid {A} (col : list (option A)) :
  length (ma_valid col) = length col.
Proof. unfold ma_valid. by rewrite length_fmap. Qed.

(** Adding to the unmasked rows through a gather and a scatter is adding
    row by row. *)
Lemma scatter_add (f : Qc → Qc) (col : list (option Qc)) (prob : list Qc) :
  length col = length prob →
  scatter (ma_valid col) prob
    (zip_with Qcplus (gather (ma_valid col) prob) (f <$> compressed col))
  = zip_with (λ y o, from_option (λ x, y + f x) y o) prob col.
Proof.
  revert prob. induction col as [|[x|] col IH]; intros [|y prob] Hlen; try done.
  - rewrite ma_valid_cons, bool_decide_true by eauto. cbn. f_equal.
    apply IH. cbn in Hlen. lia.
  - rewrite ma_valid_cons, bool_decide_false by (by intros [??]). cbn. f_equal.
    apply IH. cbn in Hlen. lia.
Qed.

Lemma product_step (f : Qc → Qc) (col : list (option Qc)) (prob : list Qc) :
  length col = length prob →
  (cur ← boolean_take prob (ma_valid col);
   boolean_put prob (ma_valid col) (zip_with Qcplus cur (f <$> compressed col)))
  = Ok (zip_with (λ y o, from_option (λ x, y + f x) y o) prob col).
Proof.
  intros Hlen. unfold boolean_take, boolean_put.
  rewrite decide_True by (by rewrite length_ma_valid).
  rewrite bind_Ok, decide_True by (by rewrite length_ma_valid).
  rewrite decide_True.
  - by rewrite scatter_add by done.
  - rewrite length_zip_with, length_fmap, length_compressed, length_gather;
      [lia|by rewrite length_ma_valid].
Qed.

(** ** The anomaly scorer *)

Lemma split_param_ok (p : list Qc) :
  (2 ≤ length p)%nat →
  ∃ shapes loc scale, split_param p = Ok (shapes, loc, scale).
Proof.
  intros Hlen. unfold split_param.
  rewrite <-length_reverse in Hlen.
  destruct (reverse p) as [|scale [|loc shapes]]; cbn in Hlen; [lia..|].
  by eexists _, _, _.
Qed.

Section scorer_props.
Variable sf : Qc → list Qc → Qc → Qc → Qc.
Variable log : Qc → Qc.

Lemma row_terms_cons (features : gmap string (list (option Qc))) (r : nat)
    (t : string) (dp : dist_params) (ts : list (string * dist_params)) :
  row_terms sf log features r ((t, dp) :: ts)
  = match observed features t r with
    | Some x => term_of sf log dp x :: row_terms sf log features r ts
    | None => row_terms sf log features r ts
    end.
Proof. unfold row_terms. cbn. by destruct (observed features t r). Qed.

(** The loop of the product method adds, to each row, the terms of the
    features still to visit. *)
Lemma anomaly_loop_product (features : gmap string (list (option Qc)))
    (n : nat) (ts : list (string * dist_params)) (prob : list Qc) :
  length prob = n →
  Forall (λ tdp : string * dist_params,
            ∃ col, features !! tdp.1 = Some col ∧ length col = n ∧
                   (2 ≤ length (param tdp.2))%nat) ts →
  ∃ scores,
    anomaly_loop sf log features "produtorium" ts prob = Ok (Some scores) ∧
    length scores = n ∧
    ∀ r y, prob !! r = Some y →
           scores !! r = Some (y + Qcsum (row_terms sf log features r ts)).
Proof.
  intros Hlen Hts. revert prob Hlen.
  induction Hts as [|[t dp] ts (col & Hcol & Hn & Hp) _ IH]; intros prob Hlen.
  - exists prob. split; [done|]. split; [done|]. intros r y Hy.
    unfold row_terms, Qcsum. cbn. by rewrite Qcplus_0_r.
  - cbn in Hcol, Hp.
    destruct (split_param_ok _ Hp) as (shapes & loc & scale & Hsplit).
    set (f := log_survival sf log shapes loc scale).
    set (prob' := zip_with (λ y o, from_option (λ x, y + f x) y o) prob col).
    destruct (IH prob') as (scores & Hrun & Hlen' & Hrows).
    { unfold prob'. rewrite length_zip_with. lia. }
    exists scores. split; [|split; [done|]].
    + cbn [anomaly_loop]. rewrite Hcol. cbn [or_raise]. rewrite bind_Ok.
      rewrite Hsplit, bind_Ok. rewrite decide_True by done.
      pose proof (product_step f col prob ltac:(lia)) as Hstep.
      fold prob' in Hstep.
      destruct (boolean_take prob (ma_valid col)) as [cur|e]; [|done].
      change (boolean_put prob (ma_valid col)
                (zip_with Qcplus cur (f <$> compressed col)) = Ok prob')
        in Hstep.
      rewrite bind_Ok. fold f. rewrite Hstep, bind_Ok.
      exact Hrun.
    + intros r y Hy.
      assert (is_Some (col !! r)) as [o Ho].
      { apply lookup_lt_is_Some. rewrite Hn, <-Hlen.
        by eapply lookup_lt_Some. }
      rewrite (Hrows r (from_option (λ x, y + f x) y o)).
      * f_equal. rewrite row_terms_cons. unfold observed.
        rewrite Hcol. cbn. rewrite Ho. cbn. destruct o as [x|]; [|done].
        cbn. unfold term_of. rewrite Hsplit. fold f. unfold Qcsum. cbn.
        by rewrite Qcplus_assoc.
      * unfold prob'. by rewrite lookup_zip_with, Hy, Ho.
Qed.
End scorer_props.

Lemma table_first (n : nat) (features : gmap string (list (option Qc)))
    (params : gmap string dist_params) :
  table_ok n features params →
  ∃ first, head (map_to_list features) = Some first ∧ length first.2 = n.
Proof.
  intros (Hne & Hcols & _).
  destruct (map_to_list features) as [|[k col] l] eqn:Hl.
  - by apply map_to_list_empty_iff in Hl.
  - exists (k, col). split; [done|]. apply (Hcols k).
    apply elem_of_map_to_list. rewrite Hl. by left.
Qed.

Lemma table_params (n : nat) (features : gmap string (list (option Qc)))
    (params : gmap string dist_params) :
  table_ok n features params →
  Forall (λ tdp : string * dist_params,
            ∃ col, features !! tdp.1 = Some col ∧ length col = n ∧
                   (2 ≤ length (param tdp.2))%nat) (map_to_list params).
Proof.
  intros (_ & Hcols & Hparams). apply Forall_forall. intros [t dp] Hin.
  apply elem_of_map_to_list in Hin.
  destruct (Hparams t dp Hin) as [[col Hcol] Hlen].
  exists col. split_and!; [done| |done]. by apply (Hcols t).
Qed.

(** The scores of the product method, row by row. *)
Lemma estimate_anomaly_product_rows (sf : Qc → list Qc → Qc → Qc → Qc)
    (log : Qc → Qc) (n : nat) (features : gmap string (list (option Qc)))
    (params : gmap string dist_params) :
  table_ok n features params →
  ∃ scores,
    estimate_anomaly sf log features params "produtorium" = Ok (Some scores) ∧
    length scores = n ∧
    ∀ r, (r < n)%nat →
      scores !! r
      = Some (Qcsum (row_terms sf log features r (map_to_list params))).
Proof.
  intros Hok.
  destruct (table_first n features params Hok) as (first & Hfirst & Hlen).
  destruct (anomaly_loop_product sf log features n (map_to_list params)
              (replicate n 0)) as (scores & Hrun & Hn & Hrows).
  { apply length_replicate. }
  { by apply table_params. }
  exists scores. split_and!; [|done|].
  - unfold estimate_anomaly. rewrite Hfirst. cbn [or_raise].
    by rewrite bind_Ok, Hlen.
  - intros r Hr. rewrite (Hrows r 0); [by rewrite Qcplus_0_l|].
    by apply lookup_replicate_2.
Qed.

Lemma row_terms_nil (sf : Qc → list Qc → Qc → Qc → Qc) (log : Qc → Qc)
    (features : gmap string (list (option Qc))) (r : nat)
    (ts : list (string * dist_params)) :
  (∀ tdp, tdp ∈ ts → observed features tdp.1 r = None) →
  row_terms sf log features r ts = [].
Proof.
  induction ts as [|[t dp] ts IH]; intros Hnone; [done|].
  rewrite row_terms_cons.
  rewrite (Hnone (t, dp) ltac:(left) : observed features t r = None).
  apply IH. intros tdp Hin. apply Hnone. by right.
Qed.

(** C6.  On a feature table of [n] rows and parameters fitted on it, and
    for a survival function with values in [0, 1] (the range on which
    [ma.log] masks nothing), the product method returns [n] scores; the
    score of a row is the sum of the log-survival-probabilities of the
    fitted features that have a value in that row, and it is [0] when every
    fitted feature is missing there. *)
Theorem estimate_anomaly_product (sf : Qc → list Qc → Qc → Qc → Qc)
    (log : Qc → Qc) (n : nat) (features : gmap string (list (option Qc)))
    (params : gmap string dist_params) :
  (∀ x shapes loc scale, 0 ≤ sf x shapes loc scale ≤ 1) →
  table_ok n features params →
  ∃ scores,
    estimate_anomaly sf log features params "produtorium" = Ok (Some scores) ∧
    length scores = n ∧
    (∀ r, (r < n)%nat →
       scores !! r
       = Some (Qcsum (row_terms sf log features r (map_to_list params)))) ∧
    (∀ r, (r < n)%nat →
       (∀ t, is_Some (params !! t) → observed features t r = None) →
       scores !! r = Some 0).
Proof.
  intros _ Hok.
  destruct (estimate_anomaly_product_rows sf log n features params Hok)
    as (scores & Hrun & Hn & Hrows).
  exists scores. split_and!; [done..|].
  intros r Hr Hnone. rewrite Hrows by done.
  rewrite row_terms_nil; [done|].
  intros [t dp] Hin%elem_of_map_to_list. apply Hnone. by exists dp.
Qed.

(** C10.  With an empty feature mapping the call raises [IndexError],
    whatever the parameters and the method are. *)
Theorem estimate_anomaly_no_features (sf : Qc → list Qc → Qc → Qc → Qc)
    (log : Qc → Qc) (params : gmap string dist_params) (method : string) :
  estimate_anomaly sf log ∅ params method = Raise IndexError.
Proof. unfold estimate_anomaly. by rewrite map_to_list_empty. Qed.

(** C4, as the code has it.  With a method that is neither ["produtorium"] nor
    ["min"] nothing is raised: the call returns [None] as soon as the loop
    visits a fitted feature, and the zero scores when no feature is
    fitted. *)
Theorem estimate_anomaly_unknown_method (sf : Qc → list Qc → Qc → Qc → Qc)
    (log : Qc → Qc) (n : nat) (features : gmap string (list (option Qc)))
    (params : gmap string dist_params) (method : string) :
  table_ok n features params →
  method ≠ "produtorium" → method ≠ "min" →
  estimate_anomaly sf log features params method
  = Ok (if decide (params = ∅) then Some (replicate n 0) else None).
Proof.
  intros Hok Hprod Hmin.
  destruct (table_first n features params Hok) as (first & Hfirst & Hlen).
  pose proof (table_params n features params Hok) as Hts.
  unfold estimate_anomaly. rewrite Hfirst. cbn [or_raise]. rewrite bind_Ok, Hlen.
  case_decide as Hempty.
  - subst params. by rewrite map_to_list_empty.
  - destruct (map_to_list params) as [|[t dp] ts] eqn:Hl.
    { by apply map_to_list_empty_iff in Hl. }
    apply Forall_cons_1 in Hts as [(col & Hcol & _ & Hp) _]. cbn in Hcol, Hp.
    destruct (split_param_ok _ Hp) as (shapes & loc & scale & Hsplit).
    cbn [anomaly_loop]. rewrite Hcol. cbn [or_raise].
    rewrite bind_Ok, Hsplit, bind_Ok.
    by rewrite !decide_False by done.
Qed.

Lemma step_sf_range (x : Qc) (shapes : list Qc) (loc scale : Qc) :
  0 ≤ step_sf x shapes loc scale ≤ 1.
Proof. unfold step_sf. by repeat case_decide. Qed.

Lemma tangent_log_nonpos (x : Qc) : 0 < x → x ≤ 1 → tangent_log x ≤ 0.
Proof.
  intros _ Hx. unfold tangent_log. apply (Qcplus_le_mono_r _ _ 1).
  by replace (x - 1 + 1) with x by ring.
Qed.

Lemma sample_table_ok : table_ok 3 sample_features sample_params.
Proof.
  split_and!.
  - apply insert_non_empty.
  - intros t col Hcol. unfold sample_features in Hcol.
    apply lookup_insert_Some in Hcol as [[_ <-]|[_ Hcol]]; [done|].
    apply lookup_insert_Some in Hcol as [[_ <-]|[_ Hcol]]; [done|].
    by rewrite lookup_empty in Hcol.
  - intros t dp Hdp. unfold sample_params in Hdp.
    apply lookup_insert_Some in Hdp as [[<- <-]|[_ Hdp]].
    { split; [by eexists|cbn; lia]. }
    apply lookup_insert_Some in Hdp as [[<- <-]|[_ Hdp]].
    { split; [by eexists|cbn; lia]. }
    by rewrite lookup_empty in Hdp.
Qed.

Lemma estimate_anomaly_product_witness :
  ∃ scores,
    estimate_anomaly step_sf tangent_log sample_features sample_params
      "produtorium" = Ok (Some scores) ∧
    length scores = 3%nat ∧
    (∀ r, (r < 3)%nat →
       scores !! r
       = Some (Qcsum (row_terms step_sf tangent_log sample_features r
                        (map_to_list sample_params)))) ∧
    (∀ r, (r < 3)%nat →
       (∀ t, is_Some (sample_params !! t) →
             observed sample_features t r = None) →
       scores !! r = Some 0).
Proof.
  apply (estimate_anomaly_product step_sf tangent_log 3 sample_features
           sample_params step_sf_range sample_table_ok).
Defined.

Lemma estimate_anomaly_unknown_method_witness :
  estimate_anomaly step_sf tangent_log sample_features sample_params "max"
  = Ok (if decide (sample_params = ∅) then Some (replicate 3 0) else None).
Proof.
  apply (estimate_anomaly_unknown_method step_sf tangent_log 3 sample_features
           sample_params "max" sample_table_ok); discriminate.
Defined.

(** C4, as stated, fails: an unknown method raises nothing, the call just
    returns [None]; and without fitted features it returns the zero
    scores. *)
Lemma estimate_anomaly_unknown_method_returns :
  estimate_anomaly step_sf tangent_log sample_features sample_params "max"
  = Ok None ∧
  estimate_anomaly step_sf tangent_log sample_features ∅ "max"
  = Ok (Some [0; 0; 0]).
Proof. split; reflexivity. Qed.

(** ** Monotonicity of the product method *)

Section scorer_monotone.
Variable sf : Qc → list Qc → Qc → Qc → Qc.
Variable log : Qc → Qc.
(** A survival probability lies between 0 and 1, and the logarithm of a
    positive number that is at most 1 is not positive. *)
Hypothesis sf_range : ∀ x shapes loc scale, 0 ≤ sf x shapes loc scale ≤ 1.
Hypothesis log_nonpos : ∀ x, 0 < x → x ≤ 1 → log x ≤ 0.

Lemma floor_zero_range (v : Qc) : 0 ≤ v ≤ 1 → 0 < floor_zero v ≤ 1.
Proof.
  intros [H0 H1]. unfold floor_zero. case_decide as Hv; [done|].
  split; [|done]. apply Qcle_lt_or_eq in H0 as [?|?]; [done|congruence].
Qed.

Lemma term_nonpos (dp : dist_params) (x : Qc) : term_of sf log dp x ≤ 0.
Proof.
  unfold term_of. destruct (split_param (param dp)) as [[[shapes loc] scale]|];
    [|done].
  unfold log_survival.
  destruct (floor_zero_range (sf x shapes loc scale)) as [Hpos Hle];
    [apply sf_range|]. by apply log_nonpos.
Qed.

(** Unmasking one value adds at most one term to a row, and that term is
    not positive. *)
Lemma row_terms_unmask (features : gmap string (list (option Qc)))
    (t : string) (col : list (option Qc)) (r : nat) (x : Qc)
    (ts : list (string * dist_params)) :
  features !! t = Some col → col !! r = Some None →
  Qcsum (row_terms sf log (<[t := <[r := Some x]> col]> features) r ts)
  ≤ Qcsum (row_terms sf log features r ts).
Proof.
  intros Hcol Hr. induction ts as [|[t' dp] ts IH]; [done|].
  rewrite !row_terms_cons.
  destruct (decide (t' = t)) as [->|Hne].
  - unfold observed. rewrite lookup_insert_eq, Hcol. cbn.
    rewrite list_lookup_insert_eq by (by eapply lookup_lt_Some).
    rewrite Hr. cbn. unfold Qcsum in *. cbn.
    trans (0 + foldr Qcplus 0 (row_terms sf log features r ts)).
    + apply Qcplus_le_compat; [apply term_nonpos|done].
    + by rewrite Qcplus_0_l.
  - replace (observed (<[t := <[r := Some x]> col]> features) t' r)
      with (observed features t' r)
      by (unfold observed; by rewrite lookup_insert_ne).
    destruct (observed features t' r) as [y|]; [|done].
    unfold Qcsum in *. cbn. by apply Qcplus_le_mono_l.
Qed.

Lemma row_terms_other_row (features : gmap string (list (option Qc)))
    (t : string) (col : list (option Qc)) (r r' : nat) (x : Qc)
    (ts : list (string * dist_params)) :
  features !! t = Some col → r' ≠ r →
  row_terms sf log (<[t := <[r := Some x]> col]> features) r' ts
  = row_terms sf log features r' ts.
Proof.
  intros Hcol Hr. induction ts as [|[t' dp] ts IH]; [done|].
  rewrite !row_terms_cons, IH.
  replace (observed (<[t := <[r := Some x]> col]> features) t' r')
    with (observed features t' r'); [done|].
  unfold observed. destruct (decide (t' = t)) as [->|Hne].
  - rewrite lookup_insert_eq, Hcol. cbn.
    by rewrite list_lookup_insert_ne by done.
  - by rewrite lookup_insert_ne by done.
Qed.
End scorer_monotone.

Lemma table_ok_unmask (n : nat) (features : gmap string (list (option Qc)))
    (params : gmap string dist_params) (t : string) (col : list (option Qc))
    (r : nat) (x : Qc) :
  table_ok n features params → features !! t = Some col →
  table_ok n (<[t := <[r := Some x]> col]> features) params.
Proof.
  intros (Hne & Hcols & Hparams) Hcol. split_and!.
  - apply insert_non_empty.
  - intros t' col' [[<- <-]|[_ Hcol']]%lookup_insert_Some.
    + rewrite length_insert. by apply (Hcols t).
    + by apply (Hcols t').
  - intros t' dp Hdp. destruct (Hparams t' dp Hdp) as [Hin Hlen].
    split; [|done]. rewrite lookup_insert_is_Some.
    destruct (decide (t = t')); [by left|by right].
Qed.

(** C7.  For a survival function with values in [0, 1] and a logarithm
    that is not positive on (0, 1], unmasking one more value [x] of a
    feature in row [r] leaves the score of the product method for that row
    the same or lower, and leaves the other rows as they were. *)
Theorem estimate_anomaly_product_monotone
    (sf : Qc → list Qc → Qc → Qc → Qc) (log : Qc → Qc)
    (sf_range : ∀ x shapes loc scale, 0 ≤ sf x shapes loc scale ≤ 1)
    (log_nonpos : ∀ x, 0 < x → x ≤ 1 → log x ≤ 0)
    (n : nat) (features : gmap string (list (option Qc)))
    (params : gmap string dist_params)
    (t : string) (col : list (option Qc)) (r : nat) (x : Qc) :
  table_ok n features params →
  features !! t = Some col →
  col !! r = Some None →
  ∃ scores scores' y y',
    estimate_anomaly sf log features params "produtorium" = Ok (Some scores) ∧
    estimate_anomaly sf log (<[t := <[r := Some x]> col]> features) params
      "produtorium" = Ok (Some scores') ∧
    scores !! r = Some y ∧
    scores' !! r = Some y' ∧
    y' ≤ y ∧
    ∀ r', r' ≠ r → scores' !! r' = scores !! r'.
Proof.
  intros Hok Hcol Hr.
  destruct (estimate_anomaly_product_rows sf log n features params Hok)
    as (scores & Hrun & Hn & Hrows).
  destruct (estimate_anomaly_product_rows sf log n
              (<[t := <[r := Some x]> col]> features) params)
    as (scores' & Hrun' & Hn' & Hrows'); [by apply table_ok_unmask|].
  assert (Hrn : (r < n)%nat).
  { destruct Hok as (_ & Hcols & _). rewrite <-(Hcols t col Hcol).
    by eapply lookup_lt_Some. }
  eexists scores, scores', _, _.
  split_and!; [done|done|by apply Hrows|by apply Hrows'| |].
  - by apply row_terms_unmask.
  - intros r' Hne. destruct (decide (r' < n)%nat) as [Hlt|Hge].
    + rewrite Hrows, Hrows' by done. f_equal. f_equal.
      by apply row_terms_other_row.
    + by rewrite !(proj2 (lookup_ge_None _ r')) by lia.
Qed.

Lemma estimate_anomaly_product_monotone_witness :
  ∃ scores scores' y y',
    estimate_anomaly step_sf tangent_log sample_features sample_params
      "produtorium" = Ok (Some scores) ∧
    estimate_anomaly step_sf tangent_log
      (<["gradient" := <[1%nat := Some (Q2Qc (1 # 2))]>
                         [Some (Q2Qc (1 # 2)); None; Some (Q2Qc 3)]]>
         sample_features)
      sample_params "produtorium" = Ok (Some scores') ∧
    scores !! 1%nat = Some y ∧
    scores' !! 1%nat = Some y' ∧
    y' ≤ y ∧
    ∀ r', r' ≠ 1%nat → scores' !! r' = scores !! r'.
Proof.
  apply (estimate_anomaly_product_monotone step_sf tangent_log step_sf_range
           tangent_log_nonpos 3 sample_features sample_params "gradient"
           [Some (Q2Qc (1 # 2)); None; Some (Q2Qc 3)] 1 (Q2Qc (1 # 2))
           sample_table_ok); reflexivity.
Defined.

(** ** The [min] method *)

Lemma py_min_cases (a p : list Qc) :
  length p = length a →
  match length a with
  | 0 => py_min a p = Ok a
  | 1 => py_min a p = Ok a ∨ py_min a p = Ok p
  | _ => py_min a p = Raise ValueError
  end.
Proof.
  intros Hlen. unfold py_min.
  destruct a as [|x [|x' a]], p as [|y [|y' p]]; try done; cbn.
  destruct (bool_decide (y < x)); [by right|by left].
Qed.

Lemma boolean_put_ok {A} (a : list A) (ind : list bool) (vals : list A) :
  length ind = length a → length vals = count_if id ind →
  ∃ a', boolean_put a ind vals = Ok a' ∧ length a' = length a.
Proof.
  intros Hind Hvals. unfold boolean_put. rewrite !decide_True by done.
  eexists. split; [done|]. clear Hvals. revert a vals Hind.
  induction ind as [|b ind IH]; intros [|x a] vals Hlen; try done.
  cbn in Hlen. cbn. destruct b; [destruct vals|]; cbn; f_equal; apply IH; lia.
Qed.

Section scorer_min.
Variable sf : Qc → list Qc → Qc → Qc → Qc.
Variable log : Qc → Qc.

(** As soon as the loop of the [min] method visits a feature with two or
    more values, [min] is asked for the truth value of an array and
    raises. *)
Lemma anomaly_loop_min (features : gmap string (list (option Qc)))
    (n : nat) (ts : list (string * dist_params)) (prob : list Qc) :
  length prob = n →
  Forall (λ tdp : string * dist_params,
            ∃ col, features !! tdp.1 = Some col ∧ length col = n ∧
                   (2 ≤ length (param tdp.2))%nat) ts →
  Exists (λ tdp : string * dist_params,
            ∃ col, features !! tdp.1 = Some col ∧
                   (2 ≤ length (compressed col))%nat) ts →
  anomaly_loop sf log features "min" ts prob = Raise ValueError.
Proof.
  intros Hlen Hts. revert prob Hlen.
  induction Hts as [|[t dp] ts (col & Hcol & Hn & Hp) _ IH];
    intros prob Hlen Hex.
  - by apply Exists_nil in Hex.
  - cbn in Hcol, Hp.
    destruct (split_param_ok _ Hp) as (shapes & loc & scale & Hsplit).
    cbn [anomaly_loop]. rewrite Hcol. cbn [or_raise].
    rewrite bind_Ok, Hsplit, bind_Ok.
    rewrite decide_False by done. rewrite decide_True by done.
    unfold boolean_take.
    rewrite decide_True by (rewrite length_ma_valid; lia). rewrite bind_Ok.
    set (cur := gather (ma_valid col) prob).
    set (p := log_survival sf log shapes loc scale <$> compressed col).
    assert (Hcur : length cur = length (compressed col)).
    { unfold cur. rewrite length_gather, length_compressed; [done|].
      rewrite length_ma_valid. lia. }
    assert (Hpl : length p = length cur).
    { unfold p. by rewrite length_fmap. }
    pose proof (py_min_cases cur p Hpl) as Hmin.
    destruct (length cur) as [|[|k]] eqn:Hk.
    + rewrite Hmin, bind_Ok.
      destruct (boolean_put_ok prob (ma_valid col) cur) as (prob' & -> & Hl').
      { rewrite length_ma_valid. lia. }
      { by rewrite <-length_compressed, Hk. }
      rewrite bind_Ok. apply IH; [lia|].
      apply Exists_cons in Hex as [(col' & Hcol' & Hc)|Hex]; [|done].
      cbn in Hcol'. rewrite Hcol in Hcol'. injection Hcol' as <-. lia.
    + assert (∃ m, py_min cur p = Ok m ∧ length m = 1%nat) as (m & -> & Hm).
      { destruct Hmin as [->| ->]; eexists; (split; [done|]); lia. }
      rewrite bind_Ok.
      destruct (boolean_put_ok prob (ma_valid col) m) as (prob' & -> & Hl').
      { rewrite length_ma_valid. lia. }
      { by rewrite <-length_compressed, Hm. }
      rewrite bind_Ok. apply IH; [lia|].
      apply Exists_cons in Hex as [(col' & Hcol' & Hc)|Hex]; [|done].
      cbn in Hcol'. rewrite Hcol in Hcol'. injection Hcol' as <-. lia.
    + by rewrite Hmin.
Qed.
End scorer_min.

(** C8, on the code.  On a feature table of [n] rows and parameters fitted
    on it, the [min] method raises [ValueError] whenever some fitted
    feature has a value in two or more rows: it returns no score at all. *)
Theorem estimate_anomaly_min_raises (sf : Qc → list Qc → Qc → Qc → Qc)
    (log : Qc → Qc) (n : nat) (features : gmap string (list (option Qc)))
    (params : gmap string dist_params) (t : string) (dp : dist_params)
    (col : list (option Qc)) :
  table_ok n features params →
  params !! t = Some dp →
  features !! t = Some col →
  (2 ≤ length (compressed col))%nat →
  estimate_anomaly sf log features params "min" = Raise ValueError.
Proof.
  intros Hok Hdp Hcol Htwo.
  destruct (table_first n features params Hok) as (first & Hfirst & Hlen).
  unfold estimate_anomaly. rewrite Hfirst. cbn [or_raise]. rewrite bind_Ok, Hlen.
  apply (anomaly_loop_min sf log features n).
  - apply length_replicate.
  - by apply table_params.
  - apply Exists_exists. exists (t, dp). split.
    + by apply elem_of_map_to_list.
    + by exists col.
Qed.

(** ** The error log of the refinement loop *)

Lemma bind_Ok_inv {A B} (m : result A) (f : A → result B) (b : B) :
  m ≫= f = Ok b → ∃ a, m = Ok a ∧ f a = Ok b.
Proof. destruct m as [a|e]; [|done]. intros Hf. by exists a. Qed.

Section refinement_props.
Context {rng : Type} (permutation : nat → rng → list nat * rng).
Variable sf : Qc → list Qc → Qc → Qc → Qc.
Variable log : Qc → Qc.
Variable combined_flag : gmap string (list (option Z)) → list (option Z).
Variable quantile : list Qc → Qc → Qc.
Variable exponweib_fit : list Qc → list Qc.
Variable review :
  gmap string (list (option Z)) → list bool → list (option bool) →
  calibration → result (gmap string (list (option Z)) * list bool).
Variable features : gmap string (list (option Qc)).

(** An iteration appends one entry, made of the [n_err] and [err_ratio]
    it found on entry and of the threshold it has just computed. *)
Lemma human_iteration_log (st st' : loop_state rng) :
  human_iteration permutation sf log combined_flag quantile exponweib_fit
    review features st = Ok st' →
  st_n_err st' = st_n_err st ∧
  st_err_ratio st' = st_err_ratio st ∧
  st_error_log st'
  = st_error_log st
    ++ [LogEntry (st_n_err st) (st_err_ratio st) (p_optimal (st_cal st'))].
Proof.
  unfold human_iteration. intros Hrun.
  apply bind_Ok_inv in Hrun as (doubt & _ & Hrun).
  apply bind_Ok_inv in Hrun as ([flags doubt'] & _ & Hrun).
  apply bind_Ok_inv in Hrun as ([c s] & _ & Hrun).
  by injection Hrun as <-.
Qed.

Lemma human_loop_log (niter : nat) (st st' : loop_state rng) :
  human_loop permutation sf log combined_flag quantile exponweib_fit
    review features niter st = Ok st' →
  st_n_err st' = st_n_err st ∧
  st_err_ratio st' = st_err_ratio st ∧
  ∃ l, st_error_log st' = st_error_log st ++ l ∧
       length l = niter ∧
       ∀ e, e ∈ l → log_err e = st_n_err st ∧
                    log_err_ratio e = st_err_ratio st.
Proof.
  revert st. induction niter as [|niter IH]; intros st Hrun; cbn in Hrun.
  - injection Hrun as <-. split_and!; [done..|].
    exists []. split_and!; [by rewrite app_nil_r|done|].
    by intros e ?%elem_of_nil.
  - apply bind_Ok_inv in Hrun as (st1 & Hit & Hrun).
    apply human_iteration_log in Hit as (Hn1 & Hr1 & Hlog1).
    apply IH in Hrun as (Hn & Hr & l & Hlog & Hlen & Hall).
    split_and!; [congruence..|].
    eexists (_ :: l). split_and!.
    + by rewrite Hlog, Hlog1, <-app_assoc.
    + cbn. by rewrite Hlen.
    + intros e [->|He]%elem_of_cons; [done|].
      rewrite <-Hn1, <-Hr1. by apply Hall.
Qed.
End refinement_props.

(** C3, on the code.  Whatever the reviewer answers, a run of [niter]
    iterations returns a log of [niter + 1] entries that all carry the
    error count and the error ratio of the calibration made before the
    loop: no iteration recomputes them. *)
Theorem human_calibrate_mistakes_stale_log {rng : Type}
    (permutation : nat → rng → list nat * rng)
    (sf : Qc → list Qc → Qc → Qc → Qc) (log : Qc → Qc)
    (combined_flag : gmap string (list (option Z)) → list (option Z))
    (quantile : list Qc → Qc → Qc) (exponweib_fit : list Qc → list Qc)
    (review : gmap string (list (option Z)) → list bool →
              list (option bool) → calibration →
              result (gmap string (list (option Z)) * list bool))
    (features : gmap string (list (option Qc)))
    (flags : gmap string (list (option Z))) (niter : nat) (s : rng)
    (out : refinement) :
  human_calibrate_mistakes permutation sf log combined_flag quantile
    exponweib_fit review features flags niter s = Ok out →
  ∃ c0 s0 s1 n_err,
    calibration_steps permutation sf log combined_flag quantile exponweib_fit
      flags features s0 = Ok (c0, s1) ∧
    count_mistakes c0 = Ok n_err ∧
    length (error_log out) = S niter ∧
    ∀ e, e ∈ error_log out →
         log_err e = n_err ∧ log_err_ratio e = error_ratio n_err c0.
Proof.
  unfold human_calibrate_mistakes, human_calibrate_mistakes_locals.
  intros Hrun.
  apply bind_Ok_inv in Hrun as (st & Hrun & Hout). injection Hout as <-.
  apply bind_Ok_inv in Hrun as ([r s0] & _ & Hrun).
  apply bind_Ok_inv in Hrun as ([c0 s1] & Hsteps & Hrun).
  apply bind_Ok_inv in Hrun as (n_err & Hcount & Hrun).
  exists c0, s0, s1, n_err. split; [done|]. split; [done|].
  destruct (flags !! "human") as [human|];
    apply human_loop_log in Hrun as (Hn & Hr & l & Hlog & Hlen & Hall);
    cbn in Hn, Hr, Hlog, Hall |- *; rewrite Hlog; (split; [cbn; by rewrite Hlen|]);
    intros e [->|He]%elem_of_cons; try done; by apply Hall.
Qed.

Lemma estimate_anomaly_min_raises_witness :
  estimate_anomaly step_sf tangent_log sample_features sample_params "min"
  = Raise ValueError.
Proof.
  apply (estimate_anomaly_min_raises step_sf tangent_log 3 sample_features
           sample_params "gradient"
           (DistParams [1; 1; 0; 1] (Q2Qc (3 # 10)))
           [Some (Q2Qc (1 # 2)); None; Some (Q2Qc 3)] sample_table_ok);
    [reflexivity|reflexivity|cbn; lia].
Defined.

Lemma human_calibrate_mistakes_stale_log_witness :
  ∃ c0 s0 s1 n_err,
    calibration_steps rotate_permutation step_sf tangent_log worst_flag
      rank_quantile tail_fit cast_flags cast_features s0 = Ok (c0, s1) ∧
    count_mistakes c0 = Ok n_err ∧
    length (error_log cast_refinement) = 2%nat ∧
    ∀ e, e ∈ error_log cast_refinement →
         log_err e = n_err ∧ log_err_ratio e = error_ratio n_err c0.
Proof.
  apply (human_calibrate_mistakes_stale_log rotate_permutation step_sf
           tangent_log worst_flag rank_quantile tail_fit strict_review
           cast_features cast_flags 1 0%nat cast_refinement).
  reflexivity.
Defined.

(** On the cast the reviewer calls the one mistake bad; the calibration of
    the iteration then finds no mistake at all, and the entry the
    iteration appends still says one mistake and a ratio of one half. *)
Lemma human_calibrate_mistakes_log_not_recomputed :
  ∃ st e,
    human_calibrate_mistakes_locals rotate_permutation step_sf tangent_log
      worst_flag rank_quantile tail_fit strict_review cast_features
      cast_flags 1 0%nat = Ok st ∧
    last (st_error_log st) = Some e ∧
    log_err e = Qc_of_nat 1 ∧
    log_err_ratio e = Q2Qc (1 # 2) ∧
    log_p_optimal e = p_optimal (st_cal st) ∧
    count_mistakes (st_cal st) = Ok (Qc_of_nat 0) ∧
    error_ratio (Qc_of_nat 0) (st_cal st) = 0.
Proof.
  eexists _, _. split; [vm_compute; reflexivity|].
  split_and!; [vm_compute; reflexivity..|].
  apply Qc_is_canon. reflexivity.
Qed.

(** ** Runs on the sample data *)

Example py_round_halves :
  py_round (Q2Qc (1 # 2)) = 1%Z ∧ py_round (Q2Qc (5 # 2)) = 3%Z ∧
  py_round (Q2Qc (7 # 5)) = 1%Z ∧ py_round (Q2Qc (8 # 5)) = 2%Z.
Proof. by split_and!. Qed.

Example split_data_groups_sample :
  split_data_groups rotate_permutation sample_flag 1%nat
  = Ok (Groups
          [true; false; false; false; false; false; false; true; true;
           false; false; true; false; true]
          [false; true; false; false; false; false; false; false; false;
           true; true; false; false; false]
          [false; false; true; true; false; false; true; false; false;
           false; false; false; false; false], 3%nat).
Proof. reflexivity. Qed.

Example py_min_sample :
  py_min [] [] = Ok [] ∧
  py_min [0] [Q2Qc (-1 # 2)] = Ok [Q2Qc (-1 # 2)] ∧
  py_min [0; 0] [Q2Qc (-1 # 2); Q2Qc (-1 # 2)] = Raise ValueError.
Proof. by split_and!. Qed.

(** Without its last row the cast has a valid flag in every row: no entry
    of [mistake] is masked, and the first review raises [TypeError] at
    line 461. *)
Example human_calibrate_mistakes_all_labelled :
  human_calibrate_mistakes rotate_permutation step_sf tangent_log worst_flag
    rank_quantile tail_fit strict_review (take 9 <$> cast_features)
    (take 9 <$> cast_flags) 1 0%nat
  = Raise TypeError.
Proof. by vm_compute. Qed.

(** * Further properties *)

(** ** The threshold optimizer *)

Lemma bind_Raise_inv {A B} (m : result A) (f : A → result B) (e : exn) :
  m ≫= f = Raise e → m = Raise e ∨ ∃ a, m = Ok a ∧ f a = Raise e.
Proof. destruct m as [a|e']; [by right; exists a|]. intros [= ->]. by left. Qed.

(** X1.  Without a row labelled good whose score is below [0.1] the
    optimizer has no threshold to return: for arrays of equal length it
    raises [ValueError], from the minimum of no score at all or from the
    [argmin] of an empty grid. *)
Theorem estimate_p_optimal_needs_low_good_score (prob : list Qc)
    (binflag : list (option bool)) :
  length prob = length binflag →
  (∀ i x, binflag !! i = Some (Some true) → prob !! i = Some x → tenth ≤ x) →
  estimate_p_optimal prob binflag = Raise ValueError.
Proof.
  intros Hlen Hhigh.
  destruct (decide (Some true ∈ binflag)) as [Hin|Hnot].
  - apply list_elem_of_lookup in Hin as [i Hi].
    by apply (estimate_p_optimal_empty_grid prob binflag i).
  - apply estimate_p_optimal_no_good_row; [done|].
    intros i Hi. apply Hnot. by eapply list_elem_of_lookup_2.
Qed.

Lemma estimate_p_optimal_needs_low_good_score_witness :
  estimate_p_optimal [Q2Qc (1 # 5); Q2Qc (-3); 0] [Some true; Some false; None]
  = Raise ValueError.
Proof.
  apply estimate_p_optimal_needs_low_good_score; [reflexivity|].
  intros [|[|[|i]]] x Hi Hx; try discriminate.
  injection Hx as <-. by vm_compute.
Defined.

Lemma Qcdiv_mult_cancel (x y : Qc) : 0 < y → x / y * y = x.
Proof.
  intros Hy. rewrite Qcmult_comm, Qcmult_div_r; [done|].
  intros ->. by apply Qclt_not_eq in Hy.
Qed.

Lemma arange0_lookup_lt (stop step : Qc) (j : nat) (q : Qc) :
  0 < step → arange0 stop step !! j = Some q → q < stop.
Proof.
  intros Hstep Hq. pose proof (arange0_lookup _ _ _ _ Hq) as ->.
  apply lookup_lt_Some in Hq. unfold arange0 in Hq.
  rewrite length_fmap, length_seq in Hq.
  pose proof (Qceiling_lt (this (stop / step))) as Hceil.
  assert (Hj : Qc_of_nat j < stop / step).
  { apply (Qcle_lt_trans _ (Qc_of_Z (Qceiling (this (stop / step)) - 1)));
      [|exact Hceil].
    apply (proj1 (Z2Qc_inj_le (Z.of_nat j)
                    (Qceiling (this (stop / step)) - 1))). lia. }
  apply (proj1 (Qcmult_lt_mono_pos_r _ _ step Hstep)) in Hj.
  by rewrite Qcdiv_mult_cancel in Hj.
Qed.

Lemma length_nonzero_from (i : nat) (b : list bool) :
  length (nonzero_from i b) = count_if id b.
Proof.
  revert i. induction b as [|x b IH]; intros i; [done|].
  unfold count_if. cbn. destruct x; cbn.
  - rewrite decide_True by done. cbn. f_equal. apply IH.
  - rewrite decide_False by done. apply IH.
Qed.

Lemma count_if_le_length {A} (f : A → bool) (a : list A) :
  (count_if f a ≤ length a)%nat.
Proof. unfold count_if. apply length_filter. Qed.

(** What a successful call went through. *)
Lemma estimate_p_optimal_Ok_inv (prob : list Qc)
    (binflag : list (option bool)) (p rate : Qc) :
  estimate_p_optimal prob binflag = Ok (p, rate) →
  length prob = length binflag ∧
  ∃ good bad m k c,
    scores_of_good prob binflag = Ok good ∧
    scores_of_bad prob binflag = Ok bad ∧
    array_min good = Ok m ∧
    (Qcopp <$> arange0 (- (m - tenth)) tenth) !! k = Some p ∧
    c = (count_if (λ y, bool_decide (y < p)%Qc) good
         + count_if (λ y, bool_decide (p < y)%Qc) bad)%nat ∧
    rate = Qc_of_nat c / Qc_of_nat (length prob) ∧
    ∀ q, q ∈ Qcopp <$> arange0 (- (m - tenth)) tenth →
      (c ≤ count_if (λ y, bool_decide (y < q)%Qc) good
           + count_if (λ y, bool_decide (q < y)%Qc) bad)%nat.
Proof.
  unfold estimate_p_optimal. intros Hrun.
  destruct (decide (length prob = length binflag)) as [Hlen|Hlen];
    [|by rewrite bool_decide_false in Hrun].
  rewrite bool_decide_true in Hrun by done. cbn [py_assert] in Hrun.
  rewrite bind_Ok in Hrun. split; [done|].
  apply bind_Ok_inv in Hrun as (P & HP & Hrun).
  unfold threshold_grid in HP.
  apply bind_Ok_inv in HP as (good & Hgood & HP).
  apply bind_Ok_inv in HP as (m & Hm & HP). injection HP as <-.
  destruct (scores_of_bad_ok prob binflag Hlen) as (bad & Hbad).
  set (P := Qcopp <$> arange0 (- (m - tenth)) tenth) in *.
  set (g := λ q : Qc,
         (count_if (λ y, bool_decide (y < q)%Qc) good +
          count_if (λ y, bool_decide (q < y)%Qc) bad)%nat).
  assert (Herr : mapM (cost prob binflag) P = Ok (g <$> P)).
  { apply mapM_result_ok. intros q _.
    unfold cost, false_negative, false_positive. by rewrite Hgood, Hbad. }
  rewrite Herr, bind_Ok in Hrun.
  apply bind_Ok_inv in Hrun as (k & Hk & Hrun).
  apply bind_Ok_inv in Hrun as (p' & Hp & Hrun).
  apply bind_Ok_inv in Hrun as (e & He & Hrun). injection Hrun as -> <-.
  destruct (P !! k) as [p0|] eqn:HPk; [|done]. injection Hp as ->.
  assert (Hne : g <$> P ≠ []).
  { intros Hnil%fmap_nil_inv. by rewrite Hnil in HPk. }
  destruct (argmin_spec _ Hne) as (k' & c & Hk' & Hc & Hfirst).
  rewrite Hk in Hk'. injection Hk' as <-.
  destruct (count_min_spec _ Hne) as (e' & He' & Hein & Hemin).
  rewrite He in He'. injection He' as <-.
  rewrite list_lookup_fmap, HPk in Hc. injection Hc as Hc.
  assert (e = c) as ->.
  { apply list_elem_of_lookup in Hein as [j Hj].
    apply Hfirst in Hj as [? _].
    assert (c ∈ g <$> P) as Hcin.
    { rewrite <-Hc. apply list_elem_of_fmap. exists p.
      split; [done|]. by eapply list_elem_of_lookup_2. }
    apply Hemin in Hcin. lia. }
  exists good, bad, m, k, c. split_and!; [done..| |done|].
  - by rewrite <-Hc.
  - intros q [j Hj]%list_elem_of_lookup. change (P !! j = Some q) in Hj.
    assert (Hgq : (g <$> P) !! j = Some (g q)).
    { by rewrite list_lookup_fmap, Hj. }
    by apply Hfirst in Hgq as [? _].
Qed.

(** X2.  A threshold that is returned is not positive, is a multiple of the
    step [0.1], and lies less than two steps below the lowest score of a
    row labelled good.  (With exact numbers it lies less than one step
    below; the grid of the code is built in floating point, where the last
    candidate can fall on [p_limit] itself, one step below that score.) *)
Theorem estimate_p_optimal_threshold_range (prob : list Qc)
    (binflag : list (option bool)) (p rate : Qc) :
  estimate_p_optimal prob binflag = Ok (p, rate) →
  p ≤ 0 ∧
  (∃ k, p = - (Qc_of_nat k * tenth)) ∧
  ∃ i x,
    binflag !! i = Some (Some true) ∧ prob !! i = Some x ∧
    x - tenth - tenth < p ∧
    ∀ j y, binflag !! j = Some (Some true) → prob !! j = Some y → x ≤ y.
Proof.
  intros (Hlen & good & bad & m & k & c & Hgood & _ & Hm & Hk & _)
    %estimate_p_optimal_Ok_inv.
  destruct (scores_of_good_ok prob binflag Hlen) as (good' & Hgood' & Hmem).
  rewrite Hgood in Hgood'. injection Hgood' as <-.
  rewrite list_lookup_fmap in Hk.
  destruct (arange0 (- (m - tenth)) tenth !! k) as [q|] eqn:Hq; [|done].
  injection Hk as <-.
  pose proof (arange0_lookup_lt _ _ _ _ tenth_pos Hq) as Hlt.
  apply arange0_lookup in Hq as ->.
  destruct (array_min_ok good) as (m' & Hm' & Hin & Hmin).
  { intros ->. done. }
  rewrite Hm in Hm'. injection Hm' as <-.
  apply Hmem in Hin as (i & Hi & Hx).
  split_and!.
  - rewrite <-(Qcopp_involutive 0). apply Qcopp_le_compat.
    apply Qcmult_nonneg_nonneg; [|by apply Qclt_le_weak, tenth_pos].
    apply (Qc_of_nat_le 0). lia.
  - by exists k.
  - exists i, m. split_and!; [done..| |].
    + apply Qclt_trans with (m - tenth).
      * apply Qclt_minus_iff.
        replace (m - tenth + - (m - tenth - tenth)) with tenth by ring.
        apply tenth_pos.
      * apply Qclt_nge. intros Hle%Qcopp_le_compat.
        rewrite Qcopp_involutive in Hle. by apply Qcle_ngt in Hle.
    + intros j y Hj Hy. apply Hmin, Hmem. eauto.
Qed.

Lemma estimate_p_optimal_threshold_range_witness :
  Q2Qc 0 ≤ 0 ∧
  (∃ k, Q2Qc 0 = - (Qc_of_nat k * tenth)) ∧
  ∃ i x,
    tie_binflag !! i = Some (Some true) ∧ tie_prob !! i = Some x ∧
    x - tenth - tenth < Q2Qc 0 ∧
    ∀ j y, tie_binflag !! j = Some (Some true) → tie_prob !! j = Some y →
           x ≤ y.
Proof.
  apply (estimate_p_optimal_threshold_range tie_prob tie_binflag (Q2Qc 0)
           (Q2Qc (1 # 2))).
  reflexivity.
Defined.

Lemma Qc_of_nat_ratio (c n : nat) :
  (c ≤ n)%nat → 0 ≤ Qc_of_nat c / Qc_of_nat n ≤ 1.
Proof.
  intros Hcn. destruct n as [|n].
  - assert (c = 0%nat) as -> by lia. done.
  - assert (Hn : 0 < Qc_of_nat (S n)).
    { apply (proj1 (Z2Qc_inj_lt 0 (Z.of_nat (S n)))). lia. }
    split.
    + apply Qcmult_nonneg_nonneg; [apply (Qc_of_nat_le 0); lia|].
      by apply Qclt_le_weak, Qcinv_pos.
    + rewrite <-(Qcmult_inv_r (Qc_of_nat (S n)))
        by (intros Heq; rewrite Heq in Hn; done).
      apply Qcmult_le_mono_nonneg_r; [|by apply Qc_of_nat_le].
      by apply Qclt_le_weak, Qcinv_pos.
Qed.

Lemma count_labels (binflag : list (option bool)) :
  (count_if id (ma_filled_false binflag)
   + count_if id (ma_filled_false (ma_invert binflag))
   = count_if (λ o : option bool, bool_decide (is_Some o)) binflag)%nat.
Proof.
  unfold count_if, ma_filled_false, ma_invert.
  induction binflag as [|[[]|] binflag IH]; [done|..];
    cbn [fmap list_fmap option_fmap option_map default];
    rewrite !filter_cons; repeat case_decide; cbn [length];
    try done; try lia.
  all: try (exfalso; match goal with H : ¬ _ |- _ => apply H end;
            by apply bool_decide_eq_true).
  all: exfalso; match goal with H : bool_decide _ = true |- _ =>
            apply bool_decide_eq_true in H as [? ?] end; done.
Qed.

(** X3.  The returned rate is the cost of the returned threshold divided
    by the number of rows.  The cost counts rows with a label only, so it
    is at most the number of labelled rows and the rate lies between 0
    and 1. *)
Theorem estimate_p_optimal_cost_bound (prob : list Qc)
    (binflag : list (option bool)) (p rate : Qc) :
  estimate_p_optimal prob binflag = Ok (p, rate) →
  ∃ c,
    cost prob binflag p = Ok c ∧
    rate = Qc_of_nat c / Qc_of_nat (length prob) ∧
    (c ≤ count_if (λ o : option bool, bool_decide (is_Some o)) binflag)%nat ∧
    0 ≤ rate ≤ 1.
Proof.
  intros (Hlen & good & bad & m & k & c & Hgood & Hbad & _ & _ & Hc & Hrate
          & _)%estimate_p_optimal_Ok_inv.
  assert (Hbound : (c ≤ count_if (λ o : option bool, bool_decide (is_Some o))
                         binflag)%nat).
  { unfold scores_of_good in Hgood. unfold scores_of_bad in Hbad.
    apply take_at_Ok, Forall2_length in Hgood, Hbad.
    unfold nonzero in Hgood, Hbad.
    rewrite length_nonzero_from in Hgood, Hbad.
    rewrite <-count_labels, Hgood, Hbad, Hc.
    apply Nat.add_le_mono; apply count_if_le_length. }
  assert (Hsize : (c ≤ length prob)%nat).
  { etrans; [exact Hbound|]. rewrite Hlen. apply count_if_le_length. }
  exists c. split_and!; [|done|done|by rewrite Hrate; apply Qc_of_nat_ratio..].
  unfold cost, false_negative, false_positive. by rewrite Hgood, Hbad, Hc.
Qed.

Lemma estimate_p_optimal_cost_bound_witness :
  ∃ c,
    cost tie_prob tie_binflag (Q2Qc 0) = Ok c ∧
    Q2Qc (1 # 2) = Qc_of_nat c / Qc_of_nat (length tie_prob) ∧
    (c ≤ count_if (λ o : option bool, bool_decide (is_Some o))
           tie_binflag)%nat ∧
    0 ≤ Q2Qc (1 # 2) ≤ 1.
Proof.
  apply (estimate_p_optimal_cost_bound tie_prob tie_binflag (Q2Qc 0)
           (Q2Qc (1 # 2))).
  reflexivity.
Defined.

Lemma take_at_insert_other {A} (a : list A) (idx : list nat) (j : nat)
    (y : A) :
  j ∉ idx → take_at (<[j := y]> a) idx = take_at a idx.
Proof.
  intros Hj. unfold take_at. f_equal. apply Forall_mapM_ext, Forall_forall.
  intros i Hi. apply list_lookup_insert_ne. by intros ->.
Qed.

(** X4.  The score of a row whose label is masked takes no part in the
    search: changing it changes neither the threshold nor the rate. *)
Theorem estimate_p_optimal_masked_row (prob : list Qc)
    (binflag : list (option bool)) (j : nat) (y : Qc) :
  binflag !! j = Some None →
  estimate_p_optimal (<[j := y]> prob) binflag
  = estimate_p_optimal prob binflag.
Proof.
  intros Hj.
  assert (Hgood : scores_of_good (<[j := y]> prob) binflag
                  = scores_of_good prob binflag).
  { apply take_at_insert_other.
    rewrite elem_of_nonzero, ma_filled_false_lookup. congruence. }
  assert (Hbad : scores_of_bad (<[j := y]> prob) binflag
                 = scores_of_bad prob binflag).
  { apply take_at_insert_other.
    rewrite elem_of_nonzero, ma_filled_false_lookup.
    unfold ma_invert. rewrite list_lookup_fmap, Hj. done. }
  unfold estimate_p_optimal, threshold_grid, cost, false_negative,
    false_positive.
  by rewrite length_insert, Hgood, Hbad.
Qed.

Lemma estimate_p_optimal_masked_row_witness :
  estimate_p_optimal (<[2%nat := Q2Qc (-7)]> [Q2Qc (-3 # 20); Q2Qc (-3 # 20); 0])
    [Some true; Some false; None]
  = estimate_p_optimal [Q2Qc (-3 # 20); Q2Qc (-3 # 20); 0]
      [Some true; Some false; None].
Proof. by apply estimate_p_optimal_masked_row. Defined.

(** ** Labels *)

Lemma flags2bin_label_of (flags : list (option Z)) :
  flags2bin flags = label_of <$> flags.
Proof.
  unfold flags2bin. apply list_eq. intros r. rewrite list_lookup_fmap.
  destruct (decide (r < length flags)%nat) as [Hlt|Hge].
  - rewrite flag_labels_lookup by done. unfold flag_in, label_of.
    destruct (flags !! r) as [[f|]|] eqn:Hr; cbn; try done.
    apply lookup_ge_None in Hr. lia.
  - rewrite (proj2 (lookup_ge_None _ r)) by (rewrite length_flag_labels; lia).
    by rewrite (proj2 (lookup_ge_None flags r)) by lia.
Qed.

(** X5.  [flags2bin] labels entry by entry and keeps the length: 1 and 2
    become true, 3 and 4 become false, and every other or missing flag is
    masked. *)
Theorem flags2bin_pointwise (flags : list (option Z)) :
  flags2bin flags = label_of <$> flags ∧
  (∀ r, flags2bin flags !! r = Some (Some true)
        ↔ flags !! r = Some (Some 1%Z) ∨ flags !! r = Some (Some 2%Z)) ∧
  (∀ r, flags2bin flags !! r = Some (Some false)
        ↔ flags !! r = Some (Some 3%Z) ∨ flags !! r = Some (Some 4%Z)).
Proof.
  pose proof (flags2bin_label_of flags) as Heq.
  split; [done|]. rewrite Heq.
  assert (Hone : ∀ f : Z,
            (label_of (Some f) = Some true ↔ f = 1%Z ∨ f = 2%Z) ∧
            (label_of (Some f) = Some false ↔ f = 3%Z ∨ f = 4%Z)).
  { intros f. split; (split; [|by intros [-> | ->]]).
    - unfold label_of, default_bad_flags, default_good_flags.
      case_bool_decide as Hb; [done|]. case_bool_decide as Hg; [|done].
      intros _. rewrite !elem_of_cons, elem_of_nil in Hg. tauto.
    - unfold label_of, default_bad_flags, default_good_flags.
      case_bool_decide as Hb; [|by case_bool_decide].
      intros _. rewrite !elem_of_cons, elem_of_nil in Hb. tauto. }
  split; intros r; rewrite list_lookup_fmap;
    (destruct (flags !! r) as [[f|]|]; cbn [fmap option_fmap option_map];
     [|split; [done|by intros [|]]..]).
  - destruct (Hone f) as [[H1 H2] _]. split.
    + intros [= Hl]. destruct (H1 Hl) as [-> | ->]; [by left|by right].
    + intros Hf. f_equal. apply H2. destruct Hf as [[= ->]|[= ->]]; auto.
  - destruct (Hone f) as [_ [H1 H2]]. split.
    + intros [= Hl]. destruct (H1 Hl) as [-> | ->]; [by left|by right].
    + intros Hf. f_equal. apply H2. destruct Hf as [[= ->]|[= ->]]; auto.
Qed.

Lemma gather_fmap {A B} (f : A → B) (ind : list bool) (a : list A) :
  gather ind (f <$> a) = f <$> gather ind a.
Proof.
  revert a. induction ind as [|b ind IH]; intros [|x a]; try done.
  cbn. destruct b; cbn; by rewrite IH.
Qed.

(** X6.  Labelling and selecting rows commute: the labels of the selected
    flags, as [human_calibrate_mistakes] computes them, are the selected
    labels, as [calibrate4flags] computes them, and one selection raises
    exactly when the other does. *)
Theorem flags2bin_select (flags : list (option Z)) (ind : list bool) :
  boolean_take (flags2bin flags) ind
  = match boolean_take flags ind with
    | Ok selected_flags => Ok (flags2bin selected_flags)
    | Raise e => Raise e
    end.
Proof.
  unfold boolean_take. rewrite !flags2bin_label_of, length_fmap.
  case_decide; [|done]. by rewrite gather_fmap, flags2bin_label_of.
Qed.

(** ** The partitioner *)

(** X7.  Whatever the lists of good and bad codes are, a row whose code is
    listed as bad never enters [fit], even when the code is listed as good
    too (the loop over the bad codes runs second): it is in [test] or in
    [err]. *)
Theorem split_data_groups_with_bad_codes {rng : Type}
    (permutation : nat → rng → list nat * rng)
    (permutation_ok : ∀ n s, (permutation n s).1 ≡ₚ seq 0 n)
    (good_flags bad_flags : list Z) (flag : list (option Z)) (s : rng) :
  ∃ g s',
    split_data_groups_with permutation good_flags bad_flags flag s
    = Ok (g, s') ∧
    ∀ r, flag_in bad_flags flag r = true →
         selected (fit g) r = false ∧
         selected (test g) r || selected (err g) r = true.
Proof.
  destruct (split_data_groups_with_spec permutation permutation_ok
              good_flags bad_flags flag s)
    as (g & s' & tg & eg & fg & tb & eb & Hrun & _ & _ & _ & Hpg & Hpb
        & _ & _ & _ & Hfit & Htest & Herr).
  exists g, s'. split; [done|]. intros r Hbad.
  pose proof (flag_in_lt _ _ _ Hbad) as Hlt.
  assert (Hlabel : flag_labels flag good_flags bad_flags !! r
                   = Some (Some false)).
  { by rewrite flag_labels_lookup, Hbad. }
  split.
  - rewrite Hfit. apply bool_decide_eq_false. intros Hr.
    assert (Hin : r ∈ tg ++ eg ++ fg).
    { rewrite !elem_of_app. right. by right. }
    rewrite Hpg in Hin. apply elem_of_rows_labelled in Hin. congruence.
  - apply elem_of_rows_labelled in Hlabel. rewrite <-Hpb in Hlabel.
    apply elem_of_app in Hlabel as [Hr|Hr].
    + by rewrite Htest, (bool_decide_true (r ∈ tb)).
    + rewrite Herr, (bool_decide_true (r ∈ eb)) by done.
      by rewrite orb_true_r.
Qed.

Lemma split_data_groups_with_bad_codes_witness :
  ∃ g s',
    split_data_groups_with rotate_permutation [1; 2]%Z [2; 3]%Z
      [Some 1; Some 2; Some 2; Some 1; Some 3]%Z 0%nat = Ok (g, s') ∧
    ∀ r, flag_in [2; 3]%Z [Some 1; Some 2; Some 2; Some 1; Some 3]%Z r = true →
         selected (fit g) r = false ∧
         selected (test g) r || selected (err g) r = true.
Proof.
  apply (split_data_groups_with_bad_codes rotate_permutation
           rotate_permutation_ok).
Defined.

(** X8.  With one or two rows flagged good nothing is set aside: every good
    row goes to [fit] and none to [test] or [err], so a threshold search on
    the [test] rows finds no good row. *)
Theorem split_data_groups_few_good_rows {rng : Type}
    (permutation : nat → rng → list nat * rng)
    (permutation_ok : ∀ n s, (permutation n s).1 ≡ₚ seq 0 n)
    (flag : list (option Z)) (s : rng) :
  (count_rows (flag_in default_good_flags flag) (length flag) ≤ 2)%nat →
  ∃ g s',
    split_data_groups permutation flag s = Ok (g, s') ∧
    ∀ r, flag_in default_good_flags flag r = true →
         selected (fit g) r = true ∧
         selected (test g) r = false ∧
         selected (err g) r = false.
Proof.
  intros HG.
  destruct (split_data_groups_facts permutation permutation_ok flag s)
    as (g & s' & tg & eg & fg & tb & eb & Hrun & _ & _ & _
        & Hgood & Hbad & (Hltg & Hleg & _) & Hfit & Htest & Herr).
  exists g, s'. split; [done|]. intros r Hr.
  rewrite round_fifth in Hltg, Hleg.
  set (G := count_rows (flag_in default_good_flags flag) (length flag)) in *.
  assert (Hzero : Z.to_nat ((2 * Z.of_nat G + 5) / 10) = 0%nat).
  { rewrite Z.div_small by lia. done. }
  rewrite Hzero in Hltg, Hleg.
  apply nil_length_inv in Hltg as ->. apply nil_length_inv in Hleg as ->.
  pose proof (proj2 (Hgood r) Hr) as Hin. cbn in Hin.
  assert (Hnb : (r ∉ tb) ∧ (r ∉ eb)).
  { split; intros Hb.
    - eapply default_flags_exclusive; [|exact Hr].
      apply Hbad, elem_of_app. by left.
    - eapply default_flags_exclusive; [|exact Hr].
      apply Hbad, elem_of_app. by right. }
  destruct Hnb as [Htb Heb]. rewrite Hfit, Htest, Herr.
  rewrite (bool_decide_true (r ∈ fg)) by done.
  rewrite (bool_decide_false (r ∈ tb)), (bool_decide_false (r ∈ eb)) by done.
  by rewrite !(bool_decide_false (r ∈ [])) by apply not_elem_of_nil.
Qed.

Lemma split_data_groups_few_good_rows_witness :
  ∃ g s',
    split_data_groups rotate_permutation [Some 1; Some 4; Some 2; Some 3]%Z
      0%nat = Ok (g, s') ∧
    ∀ r, flag_in default_good_flags [Some 1; Some 4; Some 2; Some 3]%Z r
         = true →
         selected (fit g) r = true ∧
         selected (test g) r = false ∧
         selected (err g) r = false.
Proof.
  apply (split_data_groups_few_good_rows rotate_permutation
           rotate_permutation_ok).
  vm_compute. lia.
Defined.

(** ** The anomaly scorer *)

Lemma Qcsum_nonpos (l : list Qc) : (∀ y, y ∈ l → y ≤ 0) → Qcsum l ≤ 0.
Proof.
  induction l as [|y l IH]; intros Hl; [done|].
  unfold Qcsum. cbn. apply Qcplus_nonpos_nonpos.
  - apply Hl. by left.
  - apply IH. intros z Hz. apply Hl. by right.
Qed.

(** X9.  For a survival function with values in [0, 1] and a logarithm that
    is not positive on (0, 1], no score of the product method is
    positive. *)
Theorem estimate_anomaly_product_nonpositive
    (sf : Qc → list Qc → Qc → Qc → Qc) (log : Qc → Qc)
    (sf_range : ∀ x shapes loc scale, 0 ≤ sf x shapes loc scale ≤ 1)
    (log_nonpos : ∀ x, 0 < x → x ≤ 1 → log x ≤ 0)
    (n : nat) (features : gmap string (list (option Qc)))
    (params : gmap string dist_params) :
  table_ok n features params →
  ∃ scores,
    estimate_anomaly sf log features params "produtorium" = Ok (Some scores) ∧
    length scores = n ∧
    ∀ y, y ∈ scores → y ≤ 0.
Proof.
  intros Hok.
  destruct (estimate_anomaly_product_rows sf log n features params Hok)
    as (scores & Hrun & Hn & Hrows).
  exists scores. split_and!; [done..|].
  intros y [r Hr]%list_elem_of_lookup.
  rewrite Hrows in Hr by (rewrite <-Hn; by eapply lookup_lt_Some).
  injection Hr as <-. apply Qcsum_nonpos.
  intros z Hz. unfold row_terms in Hz.
  apply list_elem_of_omap in Hz as ([t dp] & _ & Hz). cbn in Hz.
  destruct (observed features t r) as [x|]; [|done].
  injection Hz as <-. by apply term_nonpos.
Qed.

Lemma estimate_anomaly_product_nonpositive_witness :
  ∃ scores,
    estimate_anomaly step_sf tangent_log sample_features sample_params
      "produtorium" = Ok (Some scores) ∧
    length scores = 3%nat ∧
    ∀ y, y ∈ scores → y ≤ 0.
Proof.
  apply (estimate_anomaly_product_nonpositive step_sf tangent_log
           step_sf_range tangent_log_nonpos 3 sample_features sample_params
           sample_table_ok).
Defined.

Lemma anomaly_loop_other_feature (sf : Qc → list Qc → Qc → Qc → Qc)
    (log : Qc → Qc) (features : gmap string (list (option Qc)))
    (t : string) (col : list (option Qc)) (method : string)
    (ts : list (string * dist_params)) (prob : list Qc) :
  (∀ tdp, tdp ∈ ts → tdp.1 ≠ t) →
  anomaly_loop sf log (<[t := col]> features) method ts prob
  = anomaly_loop sf log features method ts prob.
Proof.
  revert prob. induction ts as [|[t' dp] ts IH]; intros prob Hts; [done|].
  assert (Hne : t ≠ t').
  { intros ->. by apply (Hts (t', dp)); [left|]. }
  assert (IH' : ∀ prob',
            anomaly_loop sf log (<[t := col]> features) method ts prob'
            = anomaly_loop sf log features method ts prob').
  { intros prob'. apply IH. intros tdp Hin. apply Hts. by right. }
  cbn [anomaly_loop]. rewrite lookup_insert_ne by done.
  destruct (features !! t') as [col'|]; [|done]. cbn [or_raise].
  rewrite !bind_Ok.
  destruct (split_param (param dp)) as [[[shapes loc] scale]|e]; [|done].
  rewrite !bind_Ok.
  repeat case_decide; [| |done].
  - destruct (boolean_take prob (ma_valid col')) as [cur|e]; [|done].
    rewrite !bind_Ok.
    destruct (boolean_put prob (ma_valid col') _) as [prob'|e]; [|done].
    by rewrite !bind_Ok.
  - destruct (boolean_take prob (ma_valid col')) as [cur|e]; [|done].
    rewrite !bind_Ok.
    destruct (py_min cur _) as [m|e]; [|done]. rewrite !bind_Ok.
    destruct (boolean_put prob (ma_valid col') m) as [prob'|e]; [|done].
    by rewrite !bind_Ok.
Qed.

Lemma table_ok_insert (n : nat) (features : gmap string (list (option Qc)))
    (params : gmap string dist_params) (t : string)
    (col : list (option Qc)) :
  table_ok n features params → length col = n →
  table_ok n (<[t := col]> features) params.
Proof.
  intros (Hne & Hcols & Hparams) Hcol. split_and!.
  - apply insert_non_empty.
  - intros t' col' [[<- <-]|[_ Hcol']]%lookup_insert_Some; [done|].
    by apply (Hcols t').
  - intros t' dp Hdp. destruct (Hparams t' dp Hdp) as [Hin Hlen].
    split; [|done]. rewrite lookup_insert_is_Some.
    destruct (decide (t = t')); [by left|by right].
Qed.

(** X10.  A feature without fitted parameters takes no part in the scores:
    adding or replacing such a column of the table changes the result of no
    method. *)
Theorem estimate_anomaly_unfitted_feature
    (sf : Qc → list Qc → Qc → Qc → Qc) (log : Qc → Qc)
    (n : nat) (features : gmap string (list (option Qc)))
    (params : gmap string dist_params) (t : string)
    (col : list (option Qc)) (method : string) :
  table_ok n features params →
  params !! t = None →
  length col = n →
  estimate_anomaly sf log (<[t := col]> features) params method
  = estimate_anomaly sf log features params method.
Proof.
  intros Hok Ht Hcol.
  destruct (table_first n features params Hok) as (first & Hfirst & Hlen).
  destruct (table_first n (<[t := col]> features) params)
    as (first' & Hfirst' & Hlen'); [by apply table_ok_insert|].
  unfold estimate_anomaly. rewrite Hfirst, Hfirst'. cbn [or_raise].
  rewrite !bind_Ok, Hlen, Hlen'.
  apply anomaly_loop_other_feature.
  intros [t' dp] Hin%elem_of_map_to_list. cbn. congruence.
Qed.

Lemma estimate_anomaly_unfitted_feature_witness :
  estimate_anomaly step_sf tangent_log
    (<["id" := [Some 1; Some (Q2Qc 2); Some (Q2Qc 3)]]> sample_features)
    sample_params "produtorium"
  = estimate_anomaly step_sf tangent_log sample_features sample_params
      "produtorium".
Proof.
  by apply (estimate_anomaly_unfitted_feature step_sf tangent_log 3
              sample_features sample_params "id" _ "produtorium"
              sample_table_ok).
Defined.

Lemma anomaly_loop_missing_feature (sf : Qc → list Qc → Qc → Qc → Qc)
    (log : Qc → Qc) (features : gmap string (list (option Qc))) (n : nat)
    (ts : list (string * dist_params)) (prob : list Qc) :
  length prob = n →
  (∀ t col, features !! t = Some col → length col = n) →
  Forall (λ tdp : string * dist_params, (2 ≤ length (param tdp.2))%nat) ts →
  Exists (λ tdp : string * dist_params, features !! tdp.1 = None) ts →
  anomaly_loop sf log features "produtorium" ts prob = Raise KeyError.
Proof.
  intros Hlen Hcols Hts. revert prob Hlen.
  induction Hts as [|[t dp] ts Hp _ IH]; intros prob Hlen Hex.
  - by apply Exists_nil in Hex.
  - cbn [anomaly_loop]. destruct (features !! t) as [col|] eqn:Hcol; [|done].
    cbn [or_raise]. rewrite bind_Ok. cbn in Hp.
    destruct (split_param_ok _ Hp) as (shapes & loc & scale & ->).
    rewrite bind_Ok, decide_True by done.
    pose proof (product_step (log_survival sf log shapes loc scale) col prob)
      as Hstep.
    rewrite (Hcols t col Hcol), Hlen in Hstep. specialize (Hstep eq_refl).
    destruct (boolean_take prob (ma_valid col)) as [cur|e]; [|done].
    change (boolean_put prob (ma_valid col)
              (zip_with Qcplus cur
                 (log_survival sf log shapes loc scale <$> compressed col))
            = Ok (zip_with (λ y o, from_option
                                     (λ x, y + log_survival sf log shapes loc
                                                 scale x) y o) prob col))
      in Hstep.
    rewrite bind_Ok, Hstep, bind_Ok.
    apply IH.
    + rewrite length_zip_with, (Hcols t col Hcol). lia.
    + apply Exists_cons in Hex as [Hnone|Hex]; [|done].
      cbn in Hnone. congruence.
Qed.

(** X11.  Parameters fitted for a feature that the table does not have make
    the product method raise [KeyError]: the call returns no score for any
    row. *)
Theorem estimate_anomaly_missing_feature
    (sf : Qc → list Qc → Qc → Qc → Qc) (log : Qc → Qc)
    (n : nat) (features : gmap string (list (option Qc)))
    (params : gmap string dist_params) (t : string) (dp : dist_params) :
  features ≠ ∅ →
  (∀ t col, features !! t = Some col → length col = n) →
  (∀ t dp, params !! t = Some dp → (2 ≤ length (param dp))%nat) →
  params !! t = Some dp →
  features !! t = None →
  estimate_anomaly sf log features params "produtorium" = Raise KeyError.
Proof.
  intros Hne Hcols Hparams Hdp Hnone.
  destruct (table_first n features ∅) as (first & Hfirst & Hlen).
  { split_and!; [done..|]. intros t' dp'. by rewrite lookup_empty. }
  unfold estimate_anomaly. rewrite Hfirst. cbn [or_raise].
  rewrite bind_Ok, Hlen.
  apply (anomaly_loop_missing_feature sf log features n).
  - apply length_replicate.
  - done.
  - apply Forall_forall. intros [t' dp'] Hin%elem_of_map_to_list.
    by apply (Hparams t').
  - apply Exists_exists. exists (t, dp). split; [|done].
    by apply elem_of_map_to_list.
Qed.

Lemma estimate_anomaly_missing_feature_witness :
  estimate_anomaly step_sf tangent_log
    (delete "spike" sample_features) sample_params "produtorium"
  = Raise KeyError.
Proof.
  apply (estimate_anomaly_missing_feature step_sf tangent_log 3
           (delete "spike" sample_features) sample_params "spike"
           (DistParams [1; 1; 0; Q2Qc 2] (Q2Qc (1 # 2)))).
  - by vm_compute.
  - intros t col [_ Hcol]%lookup_delete_Some.
    by apply (proj1 (proj2 sample_table_ok) t).
  - intros t dp Hdp. by apply (proj2 (proj2 sample_table_ok) t).
  - reflexivity.
  - reflexivity.
Defined.

(** ** The fitter *)

Lemma select_rows_ok (n : nat) (features : gmap string (list (option Qc)))
    (ind : list bool) :
  (∀ t col, features !! t = Some col → length col = n) →
  length ind = n →
  select_rows features ind = Ok (gather ind <$> features).
Proof.
  intros Hcols Hind. unfold select_rows. rewrite decide_True; [done|].
  intros t col Hcol. rewrite Hind. by eapply Hcols.
Qed.

Lemma select_rows_Ok_inv (features rows : gmap string (list (option Qc)))
    (ind : list bool) :
  select_rows features ind = Ok rows → rows = gather ind <$> features.
Proof. unfold select_rows. case_decide; [|done]. by intros [= <-]. Qed.


Lemma fit_tests_lookup_Some (quantile : list Qc → Qc → Qc)
    (exponweib_fit : list Qc → list Qc)
    (features : gmap string (list (option Qc))) (q : Qc) (t : string)
    (dp : dist_params) :
  fit_tests quantile exponweib_fit features q !! t = Some dp →
  ∃ col top,
    features !! t = Some col ∧
    top = filter (λ x, quantile (compressed col) q < x) (compressed col) ∧
    top ≠ [] ∧
    dp = DistParams (exponweib_fit top) (quantile (compressed col) q).
Proof.
  unfold fit_tests. rewrite lookup_omap.
  destruct (features !! t) as [col|]; [|done]. cbn.
  destruct (filter _ (compressed col)) as [|x top] eqn:Htop; [done|].
  intros [= <-]. exists col, (x :: top). by rewrite Htop.
Qed.



Lemma fit_tests_table_ok (quantile : list Qc → Qc → Qc)
    (exponweib_fit : list Qc → list Qc) (n : nat)
    (features : gmap string (list (option Qc))) (ind : list bool) (q : Qc) :
  features ≠ ∅ →
  (∀ t col, features !! t = Some col → length col = n) →
  (∀ samp, (2 ≤ length (exponweib_fit samp))%nat) →
  table_ok n features
    (fit_tests quantile exponweib_fit (gather ind <$> features) q).
Proof.
  intros Hne Hcols Hfit. split_and!; [done..|].
  intros t dp (col & top & Hcol & _ & _ & ->)%fit_tests_lookup_Some.
  split; [|apply Hfit]. rewrite lookup_fmap in Hcol.
  by destruct (features !! t).
Qed.

(** X13.  Parameters fitted on selected rows of a table always suit the
    whole table.  On a table without missing values, with a fit that returns
    the two shapes, the location and the scale, scoring the table with the
    fitted parameters raises nothing and gives one score for each row. *)
Theorem fit_tests_estimate_anomaly (sf : Qc → list Qc → Qc → Qc → Qc)
    (log : Qc → Qc) (quantile : list Qc → Qc → Qc)
    (exponweib_fit : list Qc → list Qc) (n : nat)
    (features : gmap string (list (option Qc))) (ind : list bool) (q : Qc) :
  features ≠ ∅ →
  (∀ t col, features !! t = Some col → length col = n) →
  (∀ t col, features !! t = Some col →
            Forall (λ o : option Qc, is_Some o) col) →
  length ind = n →
  (∀ samp, length (exponweib_fit samp) = 4%nat) →
  ∃ fit_rows scores,
    select_rows features ind = Ok fit_rows ∧
    estimate_anomaly sf log features
      (fit_tests quantile exponweib_fit fit_rows q) "produtorium"
    = Ok (Some scores) ∧
    length scores = n.
Proof.
  intros Hne Hcols _ Hind Hfit.
  destruct (estimate_anomaly_product_rows sf log n features
              (fit_tests quantile exponweib_fit (gather ind <$> features) q))
    as (scores & Hrun & Hlen & _).
  { apply fit_tests_table_ok; [done..|]. intros samp. rewrite Hfit. lia. }
  exists (gather ind <$> features), scores.
  split; [by eapply select_rows_ok|]. by split.
Qed.

Lemma tail_fit_length (samp : list Qc) : (2 ≤ length (tail_fit samp))%nat.
Proof. unfold tail_fit. destruct (array_min samp); cbn; lia. Qed.

Lemma tail_fit_four (samp : list Qc) : length (tail_fit samp) = 4%nat.
Proof. unfold tail_fit. by destruct (array_min samp). Qed.

Lemma cast_features_rows (t : string) (col : list (option Qc)) :
  cast_features !! t = Some col →
  length col = 10%nat ∧ Forall (λ o : option Qc, is_Some o) col.
Proof.
  unfold cast_features. intros [_ <-]%lookup_singleton_Some.
  split; [done|]. repeat constructor; by eexists.
Qed.

Lemma fit_tests_estimate_anomaly_witness :
  ∃ fit_rows scores,
    select_rows cast_features
      [true; true; false; false; true; true; true; false; false; false]
    = Ok fit_rows ∧
    estimate_anomaly step_sf tangent_log cast_features
      (fit_tests rank_quantile tail_fit fit_rows (Q2Qc (1 # 2))) "produtorium"
    = Ok (Some scores) ∧
    length scores = 10%nat.
Proof.
  apply (fit_tests_estimate_anomaly step_sf tangent_log rank_quantile tail_fit
           10 cast_features
           [true; true; false; false; true; true; true; false; false; false]
           (Q2Qc (1 # 2))).
  - apply map_non_empty_singleton.
  - intros t col Hcol. apply (proj1 (cast_features_rows t col Hcol)).
  - intros t col Hcol. apply (proj2 (cast_features_rows t col Hcol)).
  - reflexivity.
  - apply tail_fit_four.
Defined.

(** ** The calibration *)

Lemma gather_lookup_inv {A} (ind : list bool) (a : list A) (i : nat) (x : A) :
  gather ind a !! i = Some x → ∃ r, ind !! r = Some true ∧ a !! r = Some x.
Proof.
  revert a i. induction ind as [|b ind IH]; intros [|y a] i Hi; try done.
  cbn in Hi. destruct b.
  - destruct i as [|i]; cbn in Hi.
    + injection Hi as ->. by exists 0%nat.
    + destruct (IH a i Hi) as (r & Hr & Hx). by exists (S r).
  - destruct (IH a i Hi) as (r & Hr & Hx). by exists (S r).
Qed.

Lemma gather_lookup_pair {A B} (ind : list bool) (a : list A) (b : list B)
    (r : nat) (x : A) (y : B) :
  ind !! r = Some true → a !! r = Some x → b !! r = Some y →
  ∃ i, gather ind a !! i = Some x ∧ gather ind b !! i = Some y.
Proof.
  revert a b r.
  induction ind as [|c ind IH]; intros [|x' a] [|y' b] r Hr Ha Hb; try done.
  destruct r as [|r]; cbn in Hr, Ha, Hb.
  - injection Hr as ->. injection Ha as ->. injection Hb as ->.
    by exists 0%nat.
  - destruct (IH a b r Hr Ha Hb) as (i & Hi & Hi'). cbn.
    destruct c; [by exists (S i)|by exists i].
Qed.

Lemma elem_of_gather {A} (ind : list bool) (a : list A) (x : A) :
  x ∈ gather ind a → x ∈ a.
Proof.
  intros [i Hi]%list_elem_of_lookup.
  apply gather_lookup_inv in Hi as (r & _ & Hr).
  by eapply list_elem_of_lookup_2.
Qed.

Lemma gather_count (ind b : list bool) :
  count_if id (gather ind b) = count_if id (zip_with andb ind b).
Proof.
  revert b. induction ind as [|x ind IH]; intros [|y b]; try done.
  specialize (IH b). unfold count_if in *. cbn [gather zip_with].
  destruct x; cbn [andb]; rewrite ?filter_cons.
  - destruct y; repeat case_decide; try done; cbn; f_equal; exact IH.
  - rewrite decide_False by done. exact IH.
Qed.

Lemma estimate_p_optimal_returns (prob : list Qc)
    (binflag : list (option bool)) (i : nat) (x : Qc) :
  length prob = length binflag →
  binflag !! i = Some (Some true) →
  prob !! i = Some x →
  x < tenth →
  ∃ p rate, estimate_p_optimal prob binflag = Ok (p, rate).
Proof.
  intros Hlen Hlab Hx Hlt.
  destruct (scores_of_good_ok prob binflag Hlen) as (good & Hgood & Hmem).
  destruct (scores_of_bad_ok prob binflag Hlen) as (bad & Hbad).
  assert (Hxin : x ∈ good) by (apply Hmem; eauto).
  destruct (array_min_ok good) as (m & Hm & _ & Hmin).
  { intros ->. by apply elem_of_nil in Hxin. }
  set (P := Qcopp <$> arange0 (- (m - tenth)) tenth).
  set (g := λ q : Qc,
         (count_if (λ y, bool_decide (y < q)%Qc) good +
          count_if (λ y, bool_decide (q < y)%Qc) bad)%nat).
  assert (Herr : mapM (cost prob binflag) P = Ok (g <$> P)).
  { apply mapM_result_ok. intros q _.
    unfold cost, false_negative, false_positive. by rewrite Hgood, Hbad. }
  assert (HPne : P ≠ []).
  { unfold P. intros Hnil%fmap_nil_inv. revert Hnil.
    apply arange0_nonempty; [apply tenth_pos|].
    replace (- (m - tenth)) with (tenth + - m) by ring.
    apply (proj1 (Qclt_minus_iff m tenth)).
    eapply Qcle_lt_trans; [by apply Hmin|done]. }
  destruct (argmin_spec (g <$> P)) as (k & c & Hk & Hc & _).
  { by intros ?%fmap_nil_inv. }
  destruct (count_min_spec (g <$> P)) as (c' & Hcm & _).
  { by intros ?%fmap_nil_inv. }
  rewrite list_lookup_fmap in Hc.
  destruct (P !! k) as [p|] eqn:Hp; [|done].
  exists p, (Qc_of_nat c' / Qc_of_nat (length prob)).
  unfold estimate_p_optimal, threshold_grid.
  rewrite bool_decide_true by done. cbn [py_assert]. rewrite bind_Ok.
  rewrite Hgood, bind_Ok, Hm, bind_Ok. cbn [mret result_ret].
  rewrite bind_Ok. fold P. rewrite Herr, bind_Ok, Hk, bind_Ok, Hp.
  cbn [or_raise]. by rewrite bind_Ok, Hcm.
Qed.

Lemma estimate_p_optimal_nonpos (prob : list Qc)
    (binflag : list (option bool)) (p rate : Qc) :
  estimate_p_optimal prob binflag = Ok (p, rate) → p ≤ 0.
Proof.
  intros (_ & good & bad & m & k & c & _ & _ & _ & Hk & _)
    %estimate_p_optimal_Ok_inv.
  rewrite list_lookup_fmap in Hk.
  destruct (arange0 (- (m - tenth)) tenth !! k) as [q|] eqn:Hq; [|done].
  injection Hk as <-. apply arange0_lookup in Hq as ->.
  rewrite <-(Qcopp_involutive 0). apply Qcopp_le_compat.
  apply Qcmult_nonneg_nonneg; [|by apply Qclt_le_weak, tenth_pos].
  apply (Qc_of_nat_le 0). lia.
Qed.

Lemma length_and_ma (a : list bool) (b : list (option bool)) :
  length a = length b → length (and_ma a b) = length b.
Proof. intros Hlen. unfold and_ma. rewrite length_zip_with. lia. Qed.

Lemma length_ma_or (a b : list (option bool)) :
  length a = length b → length (ma_or a b) = length b.
Proof. intros Hlen. unfold ma_or. rewrite length_zip_with. lia. Qed.

Lemma mistake_masks_ok (prob : list Qc) (p : Qc)
    (binflags : list (option bool)) :
  length prob = length binflags →
  ∃ fn fp, mistake_masks prob p binflags = Ok (fn, fp) ∧
           length fn = length prob ∧ length fp = length prob.
Proof.
  intros Hlen. unfold mistake_masks. rewrite decide_True by done.
  eexists _, _. split; [done|].
  rewrite !length_and_ma; rewrite ?length_fmap, ?length_ma_invert; done.
Qed.

Lemma count_mistakes_Ok_inv (c : calibration) (n_err : Qc) :
  count_mistakes c = Ok n_err →
  length (mistake c) = length (err (indices c)) ∧
  n_err = Qc_of_nat (count_if id (zip_with andb (err (indices c))
                                    (ma_filled_false (mistake c)))).
Proof.
  unfold count_mistakes, boolean_take. case_decide as Hlen; [|done].
  rewrite bind_Ok. intros [= <-]. split; [done|]. f_equal.
  unfold nonzero. rewrite length_nonzero_from.
  unfold ma_filled_false. by rewrite <-gather_fmap, gather_count.
Qed.

Lemma count_if_zip_with_andb (a b : list bool) :
  (count_if id (zip_with andb a b) ≤ count_if id a)%nat.
Proof.
  revert b. induction a as [|x a IH]; intros [|y b]; try done.
  - unfold count_if. cbn [zip_with filter list_filter length]. lia.
  - specialize (IH b). unfold count_if in *. cbn [zip_with].
    rewrite !filter_cons.
    destruct x, y; cbn [andb]; repeat case_decide; cbn [length];
      try done; lia.
Qed.

(** X14.  The two masks of the mistakes: a row is a false negative exactly
    when it is labelled good and scores below the threshold, a false
    positive exactly when it is labelled bad and scores above it.  So no row
    is both, a row that scores the threshold itself is no mistake, and a row
    without label is masked among the mistakes. *)
Theorem mistake_masks_rows (prob : list Qc) (p : Qc)
    (binflags fn fp : list (option bool)) (r : nat) :
  mistake_masks prob p binflags = Ok (fn, fp) →
  (fn !! r = Some (Some true)
   ↔ ∃ y, prob !! r = Some y ∧ y < p ∧ binflags !! r = Some (Some true)) ∧
  (fp !! r = Some (Some true)
   ↔ ∃ y, prob !! r = Some y ∧ p < y ∧ binflags !! r = Some (Some false)) ∧
  ¬ (fn !! r = Some (Some true) ∧ fp !! r = Some (Some true)) ∧
  (prob !! r = Some p → ma_or fp fn !! r ≠ Some (Some true)) ∧
  (binflags !! r = Some None → ma_or fp fn !! r = Some None).
Proof.
  unfold mistake_masks. case_decide as Hlen; [|done]. intros [= <- <-].
  assert (Hfn : and_ma ((λ x, bool_decide (x < p)) <$> prob) binflags !! r
                = y ← prob !! r; o ← binflags !! r;
                  Some ((λ b, bool_decide (y < p) && b) <$> o)).
  { unfold and_ma. rewrite lookup_zip_with, list_lookup_fmap.
    by destruct (prob !! r). }
  assert (Hfp : and_ma ((λ x, bool_decide (p < x)) <$> prob)
                  (ma_invert binflags) !! r
                = y ← prob !! r; o ← binflags !! r;
                  Some ((λ b, bool_decide (p < y) && negb b) <$> o)).
  { unfold and_ma, ma_invert.
    rewrite lookup_zip_with, !list_lookup_fmap.
    destruct (prob !! r); [|done]. cbn. by destruct (binflags !! r) as [[|]|]. }
  unfold ma_or. rewrite lookup_zip_with, Hfn, Hfp.
  destruct (prob !! r) as [y|] eqn:Hy; cbn.
  2:{ split_and!.
       - split; [done|]. by intros (? & ? & _).
       - split; [done|]. by intros (? & ? & _).
       - by intros [? _].
       - done.
       - intros Hb%lookup_lt_Some. apply lookup_ge_None in Hy. lia. }
  destruct (binflags !! r) as [[[]|]|] eqn:Hb; cbn;
    rewrite ?andb_true_r, ?andb_false_r; split_and!; try done.
  all: first
    [ by intros [? ?]
    | split; [done|]; by intros (? & _ & _ & ?)
    | split;
      [ intros [= Hlt%bool_decide_eq_true]; by exists y
      | intros (? & [= <-] & Hlt & _); by rewrite bool_decide_true ]
    | intros [= ->]; rewrite bool_decide_false by apply Qcle_not_lt, Qcle_refl; done ].
Qed.

Lemma mistake_masks_rows_witness :
  let prob := [Q2Qc (-1 # 2); Q2Qc (-1 # 5); 0; Q2Qc (-1 # 5)] in
  let binflags := [Some true; Some false; Some false; None] in
  let fn := [Some true; Some false; Some false; None] in
  let fp := [Some false; Some false; Some true; None] in
  (fn !! 2%nat = Some (Some true)
   ↔ ∃ y, prob !! 2%nat = Some y ∧ y < Q2Qc (-1 # 5)
          ∧ binflags !! 2%nat = Some (Some true)) ∧
  (fp !! 2%nat = Some (Some true)
   ↔ ∃ y, prob !! 2%nat = Some y ∧ Q2Qc (-1 # 5) < y
          ∧ binflags !! 2%nat = Some (Some false)) ∧
  ¬ (fn !! 2%nat = Some (Some true) ∧ fp !! 2%nat = Some (Some true)) ∧
  (prob !! 2%nat = Some (Q2Qc (-1 # 5))
   → ma_or fp fn !! 2%nat ≠ Some (Some true)) ∧
  (binflags !! 2%nat = Some None → ma_or fp fn !! 2%nat = Some None).
Proof.
  apply (mistake_masks_rows
           [Q2Qc (-1 # 2); Q2Qc (-1 # 5); 0; Q2Qc (-1 # 5)] (Q2Qc (-1 # 5))
           [Some true; Some false; Some false; None]).
  reflexivity.
Defined.

(** X15.  The number of errors counts the rows of the [err] set that are
    marked as mistakes, a masked row counting for none; it is at most the
    size of the [err] set, so for an [err] set that is not empty the error
    ratio lies between 0 and 1.  (For an empty one the division of the
    code is by zero.) *)
Theorem count_mistakes_bounds (c : calibration) (n_err : Qc) :
  count_mistakes c = Ok n_err →
  n_err = Qc_of_nat (count_if id (zip_with andb (err (indices c))
                                    (ma_filled_false (mistake c)))) ∧
  0 ≤ n_err ≤ Qc_of_nat (count_if id (err (indices c))) ∧
  ((0 < count_if id (err (indices c)))%nat → 0 ≤ error_ratio n_err c ≤ 1).
Proof.
  intros [_ ->]%count_mistakes_Ok_inv.
  pose proof (count_if_zip_with_andb (err (indices c))
                (ma_filled_false (mistake c))) as Hle.
  split; [done|]. split.
  - split; [apply (Qc_of_nat_le 0); lia|by apply Qc_of_nat_le].
  - intros _. unfold error_ratio. by apply Qc_of_nat_ratio.
Qed.

Lemma count_mistakes_bounds_witness :
  let c := Calibration (Groups [true; false; false; false]
                          [false; true; false; false]
                          [false; false; true; true])
             ∅ [Q2Qc (-1 # 2); Q2Qc (-1 # 5); 0; Q2Qc (-1 # 5)]
             (Q2Qc (-1 # 5))
             [Some true; Some false; Some false; None]
             [Some false; Some false; Some true; None] in
  Qc_of_nat 1
  = Qc_of_nat (count_if id (zip_with andb (err (indices c))
                              (ma_filled_false (mistake c)))) ∧
  0 ≤ Qc_of_nat 1 ≤ Qc_of_nat (count_if id (err (indices c))) ∧
  ((0 < count_if id (err (indices c)))%nat →
   0 ≤ error_ratio (Qc_of_nat 1) c ≤ 1).
Proof.
  apply (count_mistakes_bounds
           (Calibration (Groups [true; false; false; false]
                           [false; true; false; false]
                           [false; false; true; true])
              ∅ [Q2Qc (-1 # 2); Q2Qc (-1 # 5); 0; Q2Qc (-1 # 5)]
              (Q2Qc (-1 # 5))
              [Some true; Some false; Some false; None]
              [Some false; Some false; Some true; None])).
  reflexivity.
Defined.

Lemma length_flags2bin (flags : list (option Z)) :
  length (flags2bin flags) = length flags.
Proof. apply length_flag_labels. Qed.

(** X16.  The steps that [human_calibrate_mistakes] spells out before its
    loop are those of [calibrate4flags] with [q = 0.9]: labelling the flags
    of the [test] rows gives the labels of the [test] rows, so the call is
    the steps followed by the count of the errors. *)
Theorem calibrate4flags_calibration_steps {rng : Type}
    (permutation : nat → rng → list nat * rng)
    (sf : Qc → list Qc → Qc → Qc → Qc) (log : Qc → Qc)
    (combined_flag : gmap string (list (option Z)) → list (option Z))
    (quantile : list Qc → Qc → Qc) (exponweib_fit : list Qc → list Qc)
    (flags : gmap string (list (option Z)))
    (features : gmap string (list (option Qc))) (s : rng) :
  calibrate4flags permutation sf log combined_flag quantile exponweib_fit
    flags features (Q2Qc (9 # 10)) s
  = '(c, s') ← calibration_steps permutation sf log combined_flag quantile
                 exponweib_fit flags features s;
    n_err ← count_mistakes c;
    mret (CalibrationResult c n_err (error_ratio n_err c), s').
Proof.
  unfold calibrate4flags, calibration_steps.
  destruct (split_data_groups permutation (combined_flag flags) s)
    as [[g s']|e]; [|done].
  rewrite !bind_Ok.
  destruct (select_rows features (fit g)) as [fit_rows|e]; [|done].
  rewrite !bind_Ok.
  destruct (estimate_anomaly sf log features _ "produtorium")
    as [[scores|]|e]; [|done..].
  rewrite !bind_Ok. cbn [or_raise]. rewrite !bind_Ok.
  destruct (boolean_take scores (test g)) as [prob_test|e]; [|done].
  rewrite !bind_Ok.
  unfold boolean_take. rewrite length_flags2bin.
  case_decide; [|done]. rewrite !bind_Ok.
  rewrite !flags2bin_label_of, gather_fmap.
  destruct (estimate_p_optimal prob_test _) as [[p rate]|e]; [|done].
  rewrite !bind_Ok.
  by destruct (mistake_masks scores p _) as [[fn fp]|e].
Qed.

Section calibration_props.
Context {rng : Type} (permutation : nat → rng → list nat * rng).
Hypothesis permutation_ok : ∀ n s, (permutation n s).1 ≡ₚ seq 0 n.
Variable sf : Qc → list Qc → Qc → Qc → Qc.
Variable log : Qc → Qc.
Variable combined_flag : gmap string (list (option Z)) → list (option Z).
Variable quantile : list Qc → Qc → Qc.
Variable exponweib_fit : list Qc → list Qc.
Hypothesis fit_length : ∀ samp, (2 ≤ length (exponweib_fit samp))%nat.

(** On a table with one value (or a mask) for each flag, the calibration
    gets as far as the search of the threshold. *)
Lemma calibrate4flags_prefix (flags : gmap string (list (option Z)))
    (features : gmap string (list (option Qc))) (q : Qc) (s : rng) :
  let flag := combined_flag flags in
  let n := length flag in
  let G := count_rows (flag_in default_good_flags flag) n in
  features ≠ ∅ →
  (∀ t col, features !! t = Some col → length col = n) →
  ∃ g s' (tg eg tb : list nat) scores,
    let params := fit_tests quantile exponweib_fit (gather (fit g) <$> features)
                    q in
    length (test g) = n ∧ length (err g) = n ∧
    length tg = Z.to_nat ((2 * Z.of_nat G + 5) / 10) ∧
    length eg = Z.to_nat ((2 * Z.of_nat G + 5) / 10) ∧
    (∀ r, r ∈ tg → flag_in default_good_flags flag r = true) ∧
    (∀ r, r ∈ tb → flag_in default_bad_flags flag r = true) ∧
    (∀ r, selected (test g) r = true ↔ r ∈ tb ∨ r ∈ tg) ∧
    (∀ r, r ∈ eg → selected (err g) r = true) ∧
    length scores = n ∧
    (∀ r, (r < n)%nat →
       scores !! r
       = Some (Qcsum (row_terms sf log features r (map_to_list params)))) ∧
    calibrate4flags permutation sf log combined_flag quantile exponweib_fit
      flags features q s
    = '(p_optimal, test_err) ←
        estimate_p_optimal (gather (test g) scores)
          (gather (test g) (flags2bin flag));
      '(false_negative, false_positive) ←
        mistake_masks scores p_optimal (flags2bin flag);
      let c := Calibration g params scores p_optimal
                 false_negative false_positive in
      n_err ← count_mistakes c;
      mret (CalibrationResult c n_err (error_ratio n_err c), s').
Proof.
  intros flag n G Hne Hcols.
  destruct (split_data_groups_facts permutation permutation_ok flag s)
    as (g & s' & tg & eg & fg & tb & eb & Hrun & (Hlfit & Hltest & Hlerr)
        & _ & _ & Hgood & Hbad & (Hltg & Hleg & _) & _ & Htest & Herr).
  destruct (estimate_anomaly_product_rows sf log n features
              (fit_tests quantile exponweib_fit (gather (fit g) <$> features)
                 q))
    as (scores & Hscores & Hlen & Hrows); [by apply fit_tests_table_ok|].
  exists g, s', tg, eg, tb, scores. cbn zeta. split_and!; try done.
  - by rewrite <-round_fifth.
  - by rewrite <-round_fifth.
  - intros r Hr. apply Hgood. rewrite elem_of_app. by left.
  - intros r Hr. apply Hbad. rewrite elem_of_app. by left.
  - by apply selected_cover.
  - intros r Hr. rewrite Herr, (bool_decide_true (r ∈ eg)) by done.
    apply orb_true_r.
  - unfold calibrate4flags. fold flag. rewrite Hrun, bind_Ok.
    rewrite (select_rows_ok n) by done. rewrite bind_Ok, Hscores, bind_Ok.
    cbn [or_raise]. rewrite bind_Ok.
    unfold boolean_take.
    rewrite !decide_True by (rewrite ?length_flags2bin, ?Hlen; exact Hltest).
    by rewrite !bind_Ok.
Qed.

Lemma test_label_good (flag : list (option Z)) (r : nat) :
  flag_in default_good_flags flag r = true →
  flags2bin flag !! r = Some (Some true).
Proof.
  intros Hr. unfold flags2bin.
  rewrite flag_labels_lookup by (by eapply flag_in_lt). rewrite Hr.
  destruct (flag_in default_bad_flags flag r) eqn:Hb; [|done].
  by destruct (default_flags_exclusive flag r).
Qed.

Lemma test_label_bad (flag : list (option Z)) (r : nat) :
  flag_in default_bad_flags flag r = true →
  flags2bin flag !! r = Some (Some false).
Proof.
  intros Hr. unfold flags2bin.
  rewrite flag_labels_lookup by (by eapply flag_in_lt). by rewrite Hr.
Qed.
End calibration_props.

Lemma selected_lookup (a : list bool) (r : nat) :
  selected a r = true ↔ a !! r = Some true.
Proof. unfold selected. destruct (a !! r) as [[]|]; naive_solver. Qed.

(** X17.  A calibration needs three rows flagged good: with fewer, no good
    row is set aside for the threshold search, and on a table with one
    entry for each flag [calibrate4flags] raises [ValueError], whatever the
    features and the flags of the other rows are. *)
Theorem calibrate4flags_few_good_rows {rng : Type}
    (permutation : nat → rng → list nat * rng)
    (permutation_ok : ∀ n s, (permutation n s).1 ≡ₚ seq 0 n)
    (sf : Qc → list Qc → Qc → Qc → Qc) (log : Qc → Qc)
    (combined_flag : gmap string (list (option Z)) → list (option Z))
    (quantile : list Qc → Qc → Qc) (exponweib_fit : list Qc → list Qc)
    (fit_length : ∀ samp, (2 ≤ length (exponweib_fit samp))%nat)
    (flags : gmap string (list (option Z)))
    (features : gmap string (list (option Qc))) (q : Qc) (s : rng) :
  features ≠ ∅ →
  (∀ t col, features !! t = Some col →
            length col = length (combined_flag flags)) →
  (count_rows (flag_in default_good_flags (combined_flag flags))
     (length (combined_flag flags)) ≤ 2)%nat →
  calibrate4flags permutation sf log combined_flag quantile exponweib_fit
    flags features q s
  = Raise ValueError.
Proof.
  intros Hne Hcols HG.
  destruct (calibrate4flags_prefix permutation permutation_ok sf log
              combined_flag quantile exponweib_fit fit_length flags features
              q s Hne Hcols)
    as (g & s' & tg & eg & tb & scores & Hltest & _ & Hltg & _ & _ & Hbad
        & Htest & _ & Hlen & _ & ->).
  rewrite Z.div_small in Hltg by lia. apply nil_length_inv in Hltg as ->.
  rewrite estimate_p_optimal_no_good_row; [done| |].
  - rewrite !length_gather; [done|by rewrite length_flags2bin|congruence].
  - intros i (r & Hr & Hlab)%gather_lookup_inv.
    apply selected_lookup, Htest in Hr as [Hr|Hr]; [|by apply elem_of_nil in Hr].
    apply Hbad, test_label_bad in Hr. congruence.
Qed.

Lemma calibrate4flags_few_good_rows_witness :
  calibrate4flags rotate_permutation step_sf tangent_log worst_flag
    rank_quantile tail_fit
    {["gradient" := [Some 1; Some 4; Some 2; Some 3]%Z]}
    {["gradient" := [Some 1; Some (Q2Qc 2); None; Some (Q2Qc 5)]]}
    (Q2Qc (9 # 10)) 0%nat
  = Raise ValueError.
Proof.
  apply (calibrate4flags_few_good_rows rotate_permutation
           rotate_permutation_ok step_sf tangent_log worst_flag rank_quantile
           tail_fit tail_fit_length).
  - apply map_non_empty_singleton.
  - by intros t col [_ <-]%lookup_singleton_Some.
  - vm_compute. lia.
Defined.

Lemma selected_count (a : list bool) (r : nat) :
  selected a r = true → (0 < count_if id a)%nat.
Proof.
  intros Hr%selected_lookup%list_elem_of_lookup_2. unfold count_if.
  assert (Hin : true ∈ filter (λ x : bool, id x = true) a).
  { by apply list_elem_of_filter. }
  destruct (filter _ a); [by apply elem_of_nil in Hin|cbn; lia].
Qed.

(** X18.  With three rows flagged good, on a table without missing values
    that has one entry for each flag, a survival function with values in
    [0, 1] and a fit that returns the two shapes, the location and the
    scale, [calibrate4flags] returns: one score for each row, none positive,
    a threshold that is not positive, an [err] set that is not empty and an
    error ratio between 0 and 1. *)
Theorem calibrate4flags_returns {rng : Type}
    (permutation : nat → rng → list nat * rng)
    (permutation_ok : ∀ n s, (permutation n s).1 ≡ₚ seq 0 n)
    (sf : Qc → list Qc → Qc → Qc → Qc) (log : Qc → Qc)
    (sf_range : ∀ x shapes loc scale, 0 ≤ sf x shapes loc scale ≤ 1)
    (log_nonpos : ∀ x, 0 < x → x ≤ 1 → log x ≤ 0)
    (combined_flag : gmap string (list (option Z)) → list (option Z))
    (quantile : list Qc → Qc → Qc) (exponweib_fit : list Qc → list Qc)
    (fit_length : ∀ samp, length (exponweib_fit samp) = 4%nat)
    (flags : gmap string (list (option Z)))
    (features : gmap string (list (option Qc))) (q : Qc) (s : rng) :
  features ≠ ∅ →
  (∀ t col, features !! t = Some col →
            length col = length (combined_flag flags)) →
  (∀ t col, features !! t = Some col →
            Forall (λ o : option Qc, is_Some o) col) →
  (3 ≤ count_rows (flag_in default_good_flags (combined_flag flags))
         (length (combined_flag flags)))%nat →
  ∃ res s',
    calibrate4flags permutation sf log combined_flag quantile exponweib_fit
      flags features q s
    = Ok (res, s') ∧
    length (prob (result_calibration res)) = length (combined_flag flags) ∧
    (∀ y, y ∈ prob (result_calibration res) → y ≤ 0) ∧
    p_optimal (result_calibration res) ≤ 0 ∧
    (0 < count_if id (err (indices (result_calibration res))))%nat ∧
    0 ≤ result_err_ratio res ≤ 1.
Proof.
  intros Hne Hcols _ HG.
  assert (fit_two : ∀ samp, (2 ≤ length (exponweib_fit samp))%nat).
  { intros samp. rewrite fit_length. lia. }
  destruct (calibrate4flags_prefix permutation permutation_ok sf log
              combined_flag quantile exponweib_fit fit_two flags features
              q s Hne Hcols)
    as (g & s' & tg & eg & tb & scores & Hltest & Hlerr & Hltg & Hleg & Hgood
        & _ & Htest & Herr & Hlen & Hrows & ->).
  set (flag := combined_flag flags) in *.
  assert (Hneg : ∀ y, y ∈ scores → y ≤ 0).
  { intros y [r Hr]%list_elem_of_lookup.
    rewrite Hrows in Hr by (rewrite <-Hlen; by eapply lookup_lt_Some).
    injection Hr as <-. apply Qcsum_nonpos.
    intros z Hz. unfold row_terms in Hz.
    apply list_elem_of_omap in Hz as ([t dp] & _ & Hz). cbn in Hz.
    destruct (observed features t r) as [x|]; [|done].
    injection Hz as <-. by apply term_nonpos. }
  pose proof (Z.div_le_lower_bound
    (2 * Z.of_nat (count_rows (flag_in default_good_flags flag)
                     (length flag)) + 5) 10 1) as Hdiv.
  destruct tg as [|r tg].
  { change (length (@nil nat)) with 0%nat in Hltg. lia. }
  destruct eg as [|r' eg].
  { change (length (@nil nat)) with 0%nat in Hleg. lia. }
  assert (Hr : flag_in default_good_flags flag r = true).
  { apply Hgood. by left. }
  assert (Hsel : test g !! r = Some true).
  { apply selected_lookup, Htest. right. by left. }
  destruct (lookup_lt_is_Some_2 scores r) as [x Hx].
  { rewrite Hlen. by eapply flag_in_lt. }
  destruct (gather_lookup_pair (test g) scores (flags2bin flag) r x
              (Some true) Hsel Hx (test_label_good flag r Hr))
    as (i & Hi & Hlab).
  destruct (estimate_p_optimal_returns (gather (test g) scores)
              (gather (test g) (flags2bin flag)) i x) as (p & rate & Hp).
  { rewrite !length_gather; [done|by rewrite length_flags2bin|congruence]. }
  { done. }
  { done. }
  { eapply Qcle_lt_trans; [|apply tenth_pos].
    by eapply Hneg, list_elem_of_lookup_2. }
  rewrite Hp, bind_Ok.
  destruct (mistake_masks_ok scores p (flags2bin flag))
    as (fn & fp & Hmasks & Hlfn & Hlfp).
  { by rewrite length_flags2bin. }
  rewrite Hmasks, bind_Ok. cbn zeta.
  set (c := Calibration g _ scores p fn fp).
  destruct (count_mistakes c) as [n_err|e] eqn:Hcount.
  2:{ unfold count_mistakes, boolean_take in Hcount.
      rewrite decide_True in Hcount; [done|].
      unfold mistake. cbn. rewrite length_ma_or; congruence. }
  apply count_mistakes_Ok_inv in Hcount as [_ ->].
  rewrite bind_Ok. eexists _, s'. split; [done|]. cbn.
  split_and!; [done|done|by eapply estimate_p_optimal_nonpos| |..].
  - apply (selected_count _ r'), Herr. by left.
  - unfold error_ratio. apply Qc_of_nat_ratio, count_if_zip_with_andb.
  - unfold error_ratio. apply Qc_of_nat_ratio, count_if_zip_with_andb.
Qed.

Lemma calibrate4flags_returns_witness :
  ∃ res s',
    calibrate4flags rotate_permutation step_sf tangent_log worst_flag
      rank_quantile tail_fit cast_flags cast_features (Q2Qc (9 # 10)) 0%nat
    = Ok (res, s') ∧
    length (prob (result_calibration res)) = length (worst_flag cast_flags) ∧
    (∀ y, y ∈ prob (result_calibration res) → y ≤ 0) ∧
    p_optimal (result_calibration res) ≤ 0 ∧
    (0 < count_if id (err (indices (result_calibration res))))%nat ∧
    0 ≤ result_err_ratio res ≤ 1.
Proof.
  apply (calibrate4flags_returns rotate_permutation rotate_permutation_ok
           step_sf tangent_log step_sf_range tangent_log_nonpos worst_flag
           rank_quantile tail_fit tail_fit_four).
  - apply map_non_empty_singleton.
  - intros t col Hcol. apply (proj1 (cast_features_rows t col Hcol)).
  - intros t col Hcol. apply (proj2 (cast_features_rows t col Hcol)).
  - vm_compute. lia.
Defined.

(** ** The human refinement loop *)

Section refinement_props.
Context {rng : Type} (permutation : nat → rng → list nat * rng).
Variable sf : Qc → list Qc → Qc → Qc → Qc.
Variable log : Qc → Qc.
Variable combined_flag : gmap string (list (option Z)) → list (option Z).
Variable quantile : list Qc → Qc → Qc.
Variable exponweib_fit : list Qc → list Qc.
Variable review :
  gmap string (list (option Z)) → list bool → list (option bool) →
  calibration → result (gmap string (list (option Z)) * list bool).
Variable features : gmap string (list (option Qc)).

(** The loop keeps the threshold of the calibration in force in the last
    entry of the log, and appends one entry in each iteration. *)
Lemma human_loop_last_entry (niter : nat) (st st' : loop_state rng) :
  human_loop permutation sf log combined_flag quantile exponweib_fit review
    features niter st = Ok st' →
  (∃ e, last (st_error_log st) = Some e ∧
        log_p_optimal e = p_optimal (st_cal st)) →
  (∃ e, last (st_error_log st') = Some e ∧
        log_p_optimal e = p_optimal (st_cal st')) ∧
  length (st_error_log st') = (length (st_error_log st) + niter)%nat.
Proof.
  revert st. induction niter as [|niter IH]; intros st Hrun Hst.
  - injection Hrun as <-. split; [done|lia].
  - cbn [human_loop] in Hrun.
    apply bind_Ok_inv in Hrun as (st1 & Hstep & Hrun).
    apply human_iteration_log in Hstep as (_ & _ & Hlog).
    destruct (IH st1 Hrun) as [Hlast Hlen].
    { eexists. rewrite Hlog, last_snoc. by split. }
    split; [done|]. rewrite Hlen, Hlog, length_app. cbn. lia.
Qed.

Lemma human_loop_no_doubt (niter : nat) (st : loop_state rng) :
  st_doubt st = None →
  human_loop permutation sf log combined_flag quantile exponweib_fit review
    features (S niter) st = Raise NameError.
Proof.
  intros Hdoubt. cbn [human_loop]. unfold human_iteration.
  by rewrite Hdoubt.
Qed.
End refinement_props.

(** X19.  The threshold that [human_calibrate_mistakes] returns is the one
    of the last entry of its error log, and the log has one entry for the
    calibration before the loop and one for each iteration. *)
Theorem human_calibrate_mistakes_last_entry {rng : Type}
    (permutation : nat → rng → list nat * rng)
    (sf : Qc → list Qc → Qc → Qc → Qc) (log : Qc → Qc)
    (combined_flag : gmap string (list (option Z)) → list (option Z))
    (quantile : list Qc → Qc → Qc) (exponweib_fit : list Qc → list Qc)
    (review :
       gmap string (list (option Z)) → list bool → list (option bool) →
       calibration → result (gmap string (list (option Z)) * list bool))
    (features : gmap string (list (option Qc)))
    (flags : gmap string (list (option Z))) (niter : nat) (s : rng)
    (r : refinement) :
  human_calibrate_mistakes permutation sf log combined_flag quantile
    exponweib_fit review features flags niter s = Ok r →
  length (error_log r) = S niter ∧
  ∃ e, last (error_log r) = Some e ∧ log_p_optimal e = final_p_optimal r.
Proof.
  unfold human_calibrate_mistakes.
  intros (st & Hlocals & [= <-])%bind_Ok_inv. cbn.
  unfold human_calibrate_mistakes_locals in Hlocals.
  apply bind_Ok_inv in Hlocals as ([res s1] & _ & Hlocals).
  apply bind_Ok_inv in Hlocals as ([c s2] & _ & Hlocals).
  apply bind_Ok_inv in Hlocals as (n_err & _ & Hlocals).
  destruct (flags !! "human");
    apply human_loop_last_entry in Hlocals as [Hlast Hlen];
    try (by eexists); by rewrite Hlen.
Qed.

Lemma human_calibrate_mistakes_last_entry_witness :
  length (error_log cast_refinement) = 2%nat ∧
  ∃ e, last (error_log cast_refinement) = Some e ∧
       log_p_optimal e = final_p_optimal cast_refinement.
Proof.
  apply (human_calibrate_mistakes_last_entry rotate_permutation step_sf
           tangent_log worst_flag rank_quantile tail_fit strict_review
           cast_features cast_flags 1 0%nat).
  by vm_compute.
Defined.

(** X20.  When the flags already have a column ['human'], the name [doubt]
    is never bound: whatever the number of iterations asked for, the first
    one raises [NameError] at the point where a call without iterations
    returns, and an exception raised before the loop comes first. *)
Theorem human_calibrate_mistakes_human_column {rng : Type}
    (permutation : nat → rng → list nat * rng)
    (sf : Qc → list Qc → Qc → Qc → Qc) (log : Qc → Qc)
    (combined_flag : gmap string (list (option Z)) → list (option Z))
    (quantile : list Qc → Qc → Qc) (exponweib_fit : list Qc → list Qc)
    (review :
       gmap string (list (option Z)) → list bool → list (option bool) →
       calibration → result (gmap string (list (option Z)) * list bool))
    (features : gmap string (list (option Qc)))
    (flags : gmap string (list (option Z))) (niter : nat) (s : rng) :
  is_Some (flags !! "human") →
  human_calibrate_mistakes permutation sf log combined_flag quantile
    exponweib_fit review features flags (S niter) s
  = match human_calibrate_mistakes permutation sf log combined_flag quantile
            exponweib_fit review features flags 0 s with
    | Ok _ => Raise NameError
    | Raise e => Raise e
    end.
Proof.
  intros [col Hcol].
  unfold human_calibrate_mistakes, human_calibrate_mistakes_locals.
  destruct (calibrate4flags permutation sf log combined_flag quantile
              exponweib_fit flags features (Q2Qc (9 # 10)) s)
    as [[res s1]|e]; [|done].
  rewrite !bind_Ok.
  destruct (calibration_steps permutation sf log combined_flag quantile
              exponweib_fit flags features s1) as [[c s2]|e]; [|done].
  rewrite !bind_Ok.
  destruct (count_mistakes c) as [n_err|e]; [|done].
  rewrite !bind_Ok, Hcol.
  by rewrite human_loop_no_doubt.
Qed.

Lemma human_calibrate_mistakes_human_column_witness :
  human_calibrate_mistakes rotate_permutation step_sf tangent_log worst_flag
    rank_quantile tail_fit strict_review cast_features
    (<["human" := replicate 10 (Some 0%Z)]> cast_flags) 1 0%nat
  = match human_calibrate_mistakes rotate_permutation step_sf tangent_log
            worst_flag rank_quantile tail_fit strict_review cast_features
            (<["human" := replicate 10 (Some 0%Z)]> cast_flags) 0 0%nat with
    | Ok _ => Raise NameError
    | Raise e => Raise e
    end.
Proof.
  apply (human_calibrate_mistakes_human_column rotate_permutation step_sf
           tangent_log worst_flag rank_quantile tail_fit strict_review
           cast_features (<["human" := replicate 10 (Some 0%Z)]> cast_flags)
           0 0%nat).
  rewrite lookup_insert. by eexists.
Defined.
